(** * Password Strength Analyzer: a shallow embedding of
      [src/password_analyzer.py] (class [PasswordAnalyzer]) and the
      properties of its detectors, entropy estimate, score, label and
      recommendations. *)

From Stdlib Require Import ZArith NArith List Bool String Ascii Lia.
From Stdlib Require Import PrimFloat FloatOps SpecFloat.
From Stdlib Require Import QArith Qreals Reals Lra.
From Stdlib Require Import DecimalString.
Import ListNotations.

Set Warnings "-inexact-float".
Local Open Scope Z_scope.

(** ** Python values used by the analyzer *)

(** A Python [str] is a sequence of Unicode code points. *)
Definition codepoint := N.
Definition str := list codepoint.

(** An ASCII literal, read as a [str]. *)
Definition u (s : string) : str := map N_of_ascii (list_ascii_of_string s).

Definition len {A : Type} (l : list A) : Z := Z.of_nat (List.length l).

Definition str_eqb (a b : str) : bool :=
  if list_eq_dec N.eq_dec a b then true else false.

(** The two exceptions the analyzer's own expressions could raise:
    [password[i]] out of range and [count / length] with [length = 0]. *)
Inductive exn : Type := IndexError | ZeroDivisionError.

Inductive result (A : Type) : Type :=
| Ok (a : A)
| Raise (e : exn).
Arguments Ok {A} a.
Arguments Raise {A} e.

Definition bind {A B : Type} (m : result A) (k : A -> result B) : result B :=
  match m with
  | Ok a => k a
  | Raise e => Raise e
  end.

Declare Scope py_scope.
Delimit Scope py_scope with py.
Notation "x <- m ;; k" := (bind m (fun x => k))
  (at level 61, m at next level, right associativity) : py_scope.
Local Open Scope py_scope.

(** [range(n)]: empty when [n <= 0]. *)
Definition range (n : Z) : list Z := map Z.of_nat (seq 0 (Z.to_nat n)).

(** [s[i]]: a negative index counts from the end, anything outside
    [-len(s) <= i < len(s)] raises [IndexError]. *)
Definition getitem (s : str) (i : Z) : result codepoint :=
  let j := if i <? 0 then i + len s else i in
  if j <? 0 then Raise IndexError
  else match nth_error s (Z.to_nat j) with
       | Some c => Ok c
       | None => Raise IndexError
       end.

(** [needle in hay] on strings: [needle] occurs as a contiguous block. *)
Fixpoint startswith (needle hay : str) : bool :=
  match needle, hay with
  | [], _ => true
  | _ :: _, [] => false
  | a :: needle', b :: hay' => N.eqb a b && startswith needle' hay'
  end.

Fixpoint contains (needle hay : str) : bool :=
  startswith needle hay ||
  match hay with
  | [] => false
  | _ :: hay' => contains needle hay'
  end.

(** [re.search(r'[...]', s)] for a pattern that is one character class:
    there is a match iff some character of [s] is in the class. *)
Definition re_search_class (cls : codepoint -> bool) (s : str) : bool :=
  existsb cls s.

Definition in_range (lo hi : N) (c : codepoint) : bool :=
  (N.leb lo c && N.leb c hi)%bool.

Definition is_ascii (c : codepoint) : bool := N.ltb c 128.

Definition ascii_lower (c : codepoint) : codepoint :=
  if in_range 65 90 c then (c + 32)%N else c.

(** The Unicode tables behind [str.lower] and the regular expression
    class [\d] belong to the Python runtime, not to the analyzer.  They are
    taken as an interface, with the facts about them that the analyzer's
    behaviour on ASCII text depends on, and the fact that the ARABIC-INDIC
    DIGITS U+0660..U+0669 have category Nd. *)
Class Unicode : Type := {
  lower : str -> str;
  isdecimal : codepoint -> bool;
  lower_ascii :
    forall s, forallb is_ascii s = true -> lower s = map ascii_lower s;
  isdecimal_ascii :
    forall c, is_ascii c = true -> isdecimal c = in_range 48 57 c;
  isdecimal_arabic_indic :
    forall c, in_range 1632 1641 c = true -> isdecimal c = true
}.

(** A table that meets the interface: it lowers ASCII letters only and
    knows the ASCII and the ARABIC-INDIC digits. *)
Definition basic_isdecimal (c : codepoint) : bool :=
  (in_range 48 57 c || in_range 1632 1641 c)%bool.

Lemma basic_isdecimal_ascii :
  forall c, is_ascii c = true -> basic_isdecimal c = in_range 48 57 c.
Proof.
  intros c Hc. unfold basic_isdecimal, is_ascii, in_range in *.
  destruct (N.leb 1632 c) eqn:E; [|now rewrite orb_false_r].
  apply N.leb_le in E. apply N.ltb_lt in Hc. lia.
Qed.

Lemma basic_isdecimal_arabic_indic :
  forall c, in_range 1632 1641 c = true -> basic_isdecimal c = true.
Proof. intros c Hc. unfold basic_isdecimal. now rewrite Hc, orb_true_r. Qed.

Definition basic_unicode : Unicode :=
  {| lower := map ascii_lower;
     isdecimal := basic_isdecimal;
     lower_ascii := fun s _ => eq_refl;
     isdecimal_ascii := basic_isdecimal_ascii;
     isdecimal_arabic_indic := basic_isdecimal_arabic_indic |}.

(** ** The analyzer *)

(** [self.common_passwords]: membership is all the code asks of the set. *)
Definition common_passwords : list str :=
  [ u "password"; u "123456"; u "12345678"; u "qwerty"; u "abc123";
    u "monkey"; u "1234567"; u "letmein"; u "trustno1"; u "dragon";
    u "baseball"; u "iloveyou"; u "master"; u "sunshine"; u "ashley";
    u "bailey"; u "shadow"; u "123123"; u "654321"; u "superman" ].

Definition set_mem (x : str) (s : list str) : bool := existsb (str_eqb x) s.

(** The members of the class in [has_special]'s pattern; 34 is the
    double quote. *)
Definition special_chars : str :=
  u "!@#$%^&*(),.?" ++ [34%N] ++ u ":{}|<>".

Definition is_special (c : codepoint) : bool := existsb (N.eqb c) special_chars.

(** [_check_repeated_chars]: the loop over [range(len(password) - 2)],
    leaving at the first hit.  [a == b == c] is [a == b and b == c], so
    [password[i+2]] is read only when the first two are equal. *)
Definition repeated_at (password : str) (i : Z) : result bool :=
  a <- getitem password i ;;
  b <- getitem password (i + 1) ;;
  if N.eqb a b then
    c <- getitem password (i + 2) ;; Ok (N.eqb b c)
  else Ok false.

Fixpoint repeated_loop (password : str) (idx : list Z) : result bool :=
  match idx with
  | [] => Ok false
  | i :: rest =>
      hit <- repeated_at password i ;;
      if hit then Ok true else repeated_loop password rest
  end.

Definition _check_repeated_chars (password : str) : result bool :=
  repeated_loop password (range (len password - 2)).

(** [_check_sequential] *)
Definition sequences : list str :=
  [ u "abc"; u "123"; u "xyz"; u "qwe"; u "asd" ].

Fixpoint sequential_loop (seqs : list str) (password_lower : str) : bool :=
  match seqs with
  | [] => false
  | sq :: rest =>
      if (contains sq password_lower || contains (rev sq) password_lower)%bool
      then true
      else sequential_loop rest password_lower
  end.

Definition _check_sequential `{Unicode} (password : str) : bool :=
  let password_lower := lower password in
  sequential_loop sequences password_lower.

(** ** Numbers of [_calculate_entropy]

    [entropy] starts as the [int] 0 and becomes a [float] at the first
    [entropy -= ...]; [round] keeps the type of its argument.  Floats are
    IEEE 754 binary64, as in CPython. *)
Inductive num : Type :=
| Int (z : Z)
| Float (f : float).

(** [float(z)]: the nearest binary64, ties to even. *)
Definition float_of_Z (z : Z) : float :=
  SF2Prim (binary_normalize prec emax z 0 false).

(** [a / b] on two [int]s.  The quotient of the two conversions is the
    correctly rounded quotient as long as both are below [2^53] in absolute
    value, which the counts and the length of a password are. *)
Definition truediv (a b : Z) : result float :=
  if b =? 0 then Raise ZeroDivisionError
  else Ok (float_of_Z a / float_of_Z b)%float.

(** Truth value of a float, and [a and b]: [a] when [a] is false. *)
Definition float_truth (x : float) : bool := negb (PrimFloat.eqb x 0%float).

Definition float_and (a b : float) : float := if float_truth a then b else a.

Definition num_sub_float (a : num) (b : float) : num :=
  match a with
  | Int z => Float (float_of_Z z - b)%float
  | Float f => Float (f - b)%float
  end.

Definition num_mul_int (a : num) (b : Z) : num :=
  match a with
  | Int z => Int (z * b)
  | Float f => Float (f * float_of_Z b)%float
  end.

(** The nearest integer to [a / b] for [0 <= a] and [0 < b], ties to even. *)
Definition round_half_even (a b : Z) : Z :=
  let q := a / b in
  match (2 * (a mod b)) ?= b with
  | Lt => q
  | Gt => q + 1
  | Eq => if Z.even q then q else q + 1
  end.

(** [round(x, 2)] on a float: CPython prints the exact value of [x] with
    two digits after the point, correctly rounded with ties to even, and
    reads the decimal back as the nearest binary64.  From [2^46] on two
    neighbouring floats are at least [1/64] apart, so the float nearest to
    the decimal is [x] itself; below, the hundredths fit in 53 bits and the
    division by 100 rounds once.  NaN, the infinities and the zeros are
    returned as they are. *)
Definition float_round2 (x : float) : float :=
  match Prim2SF x with
  | S754_finite s m e =>
      if PrimFloat.leb 70368744177664%float (PrimFloat.abs x) then x
      else
        let n := round_half_even (Z.pos m * 100 * 2 ^ Z.max e 0)
                                 (2 ^ Z.max (- e) 0) in
        let r := (float_of_Z n / 100)%float in
        if s then (- r)%float else r
  | _ => x
  end.

Definition round2 (a : num) : num :=
  match a with
  | Int z => Int z
  | Float f => Float (float_round2 f)
  end.

(** [Counter(password)]: the counts, in the order in which the characters
    first occur (the order [values()] iterates in). *)
Fixpoint counter_incr (c : codepoint) (m : list (codepoint * Z))
  : list (codepoint * Z) :=
  match m with
  | [] => [(c, 1)]
  | (k, v) :: m' =>
      if N.eqb k c then (k, v + 1) :: m' else (k, v) :: counter_incr c m'
  end.

Definition Counter (s : str) : list (codepoint * Z) :=
  fold_left (fun m c => counter_incr c m) s [].

Definition values (m : list (codepoint * Z)) : list Z := map snd m.

(** [_calculate_entropy] *)
Fixpoint entropy_loop (counts : list Z) (length : Z) (entropy : num)
  : result num :=
  match counts with
  | [] => Ok entropy
  | count :: rest =>
      probability <- truediv count length ;;
      entropy_loop rest length
        (num_sub_float entropy
           (probability *
              float_and probability (probability * 3.321928))%float)
  end.

Definition _calculate_entropy (password : str) : result num :=
  let char_freq := Counter password in
  let length := len password in
  entropy <- entropy_loop (values char_freq) length (Int 0) ;;
  Ok (round2 (num_mul_int entropy length)).

(** ** The report

    [analyze_password] fills a dict with nine entries, then adds the score,
    the label and the recommendations.  [_calculate_strength] and
    [_generate_recommendations] read the first nine only. *)
Record Checks : Type := {
  length : Z;
  has_uppercase : bool;
  has_lowercase : bool;
  has_digits : bool;
  has_special : bool;
  is_common : bool;
  has_repeated : bool;
  has_sequential : bool;
  entropy : num
}.

Record Report : Type := {
  checks : Checks;
  strength_score : Z;
  strength_label : string;
  recommendations : list string
}.

(** [if cond: score += delta] *)
Definition add_if (cond : bool) (delta score : Z) : Z :=
  if cond then score + delta else score.

(** [_calculate_strength] *)
Definition _calculate_strength (results : Checks) : Z :=
  let score := 0 in
  let score := add_if (length results >=? 8) 20 score in
  let score := add_if (length results >=? 12) 10 score in
  let score := add_if (length results >=? 16) 10 score in
  let score := add_if (has_uppercase results) 15 score in
  let score := add_if (has_lowercase results) 15 score in
  let score := add_if (has_digits results) 15 score in
  let score := add_if (has_special results) 15 score in
  let score := add_if (is_common results) (-50) score in
  let score := add_if (has_repeated results) (-10) score in
  let score := add_if (has_sequential results) (-10) score in
  Z.max 0 (Z.min 100 score).

(** [_get_strength_label] *)
Definition _get_strength_label (score : Z) : string :=
  if score <? 40 then "Weak"
  else if score <? 70 then "Moderate"
  else if score <? 90 then "Strong"
  else "Very Strong".

(** [if cond: recommendations.append(advice)] *)
Definition append_if (cond : bool) (advice : string) (recs : list string)
  : list string :=
  if cond then recs ++ [advice] else recs.

Definition is_empty {A : Type} (l : list A) : bool :=
  match l with
  | [] => true
  | _ :: _ => false
  end.

(** [_generate_recommendations] *)
Definition _generate_recommendations (results : Checks) : list string :=
  let recommendations := [] in
  let recommendations :=
    append_if (length results <? 12)
      "Increase length to at least 12 characters" recommendations in
  let recommendations :=
    append_if (negb (has_uppercase results))
      "Add uppercase letters" recommendations in
  let recommendations :=
    append_if (negb (has_lowercase results))
      "Add lowercase letters" recommendations in
  let recommendations :=
    append_if (negb (has_digits results))
      "Include numbers" recommendations in
  let recommendations :=
    append_if (negb (has_special results))
      "Add special characters (!@#$%^&*)" recommendations in
  let recommendations :=
    append_if (is_common results)
      "Avoid common passwords - choose something unique" recommendations in
  let recommendations :=
    append_if (has_repeated results)
      "Remove repeated character sequences" recommendations in
  let recommendations :=
    append_if (has_sequential results)
      "Avoid sequential patterns (abc, 123)" recommendations in
  let recommendations :=
    append_if (is_empty recommendations)
      "Excellent! Consider using a password manager" recommendations in
  recommendations.

(** [analyze_password] *)
Definition analyze_password `{Unicode} (password : str) : result Report :=
  let v_length := len password in
  let v_has_uppercase := re_search_class (in_range 65 90) password in
  let v_has_lowercase := re_search_class (in_range 97 122) password in
  let v_has_digits := re_search_class isdecimal password in
  let v_has_special := re_search_class is_special password in
  let v_is_common := set_mem (lower password) common_passwords in
  v_has_repeated <- _check_repeated_chars password ;;
  let v_has_sequential := _check_sequential password in
  v_entropy <- _calculate_entropy password ;;
  let results :=
    {| length := v_length;
       has_uppercase := v_has_uppercase;
       has_lowercase := v_has_lowercase;
       has_digits := v_has_digits;
       has_special := v_has_special;
       is_common := v_is_common;
       has_repeated := v_has_repeated;
       has_sequential := v_has_sequential;
       entropy := v_entropy |} in
  let score := _calculate_strength results in
  let label := _get_strength_label score in
  Ok {| checks := results;
        strength_score := score;
        strength_label := label;
        recommendations := _generate_recommendations results |}.

(** ** The policies as the specification words them *)

Definition delta (cond : bool) (d : Z) : Z := if cond then d else 0.

(** The sum of the deltas of the scoring table, then the clamp. *)
Definition policy_sum (r : Checks) : Z :=
  delta (8 <=? length r) 20
  + delta (12 <=? length r) 10
  + delta (16 <=? length r) 10
  + delta (has_uppercase r) 15
  + delta (has_lowercase r) 15
  + delta (has_digits r) 15
  + delta (has_special r) 15
  - delta (is_common r) 50
  - delta (has_repeated r) 10
  - delta (has_sequential r) 10.

Definition policy_score (r : Checks) : Z :=
  Z.max 0 (Z.min 100 (policy_sum r)).

(** The eight conditions of the advice list, in priority order, each with
    its advice. *)
Definition advice_table (r : Checks) : list (bool * string) :=
  [ (length r <? 12, "Increase length to at least 12 characters"%string);
    (negb (has_uppercase r), "Add uppercase letters"%string);
    (negb (has_lowercase r), "Add lowercase letters"%string);
    (negb (has_digits r), "Include numbers"%string);
    (negb (has_special r), "Add special characters (!@#$%^&*)"%string);
    (is_common r, "Avoid common passwords - choose something unique"%string);
    (has_repeated r, "Remove repeated character sequences"%string);
    (has_sequential r, "Avoid sequential patterns (abc, 123)"%string) ].

Definition fallback_advice : string :=
  "Excellent! Consider using a password manager".

Definition fired_advice (r : Checks) : list string :=
  map snd (filter fst (advice_table r)).

Definition advice_spec (r : Checks) : list string :=
  match fired_advice r with
  | [] => [fallback_advice]
  | l => l
  end.

(** A run of three equal characters starting at index [i]. *)
Definition run_at (s : str) (i : nat) : Prop :=
  exists c, nth_error s i = Some c
         /\ nth_error s (i + 1) = Some c
         /\ nth_error s (i + 2) = Some c.

(** [needle] is a contiguous substring of [hay]. *)
Definition substring (needle hay : str) : Prop :=
  exists pre post, hay = pre ++ needle ++ post.

(** The five motifs and their reversals, spelled out. *)
Definition motifs_and_reversals : list str :=
  [ u "abc"; u "123"; u "xyz"; u "qwe"; u "asd";
    u "cba"; u "321"; u "zyx"; u "ewq"; u "dsa" ].

(** The entropy estimate as the specification words it, over the reals:
    the sum over the distinct characters of [-(p * log2 p)] with
    [p = count / length], times the length. *)
Definition log2 (x : R) : R := (ln x / ln 2)%R.

Definition shannon_per_symbol (s : str) : R :=
  fold_right
    (fun count acc =>
       let p := (IZR count / IZR (len s))%R in (- (p * log2 p) + acc)%R)
    0%R (values (Counter s)).

Definition shannon_total (s : str) : R :=
  (shannon_per_symbol s * IZR (len s))%R.

(** The loop of [_calculate_entropy] once more, in exact arithmetic (reals
    in place of floats, no final rounding): what the code's expression
    denotes before binary64 rounding. *)
Fixpoint entropy_loop_exact (counts : list Z) (length : R) (entropy : R) : R :=
  match counts with
  | [] => entropy
  | count :: rest =>
      let probability := (IZR count / length)%R in
      entropy_loop_exact rest length
        (entropy
         - probability *
           (if Req_EM_T probability 0 then probability
            else probability * 3.321928))%R
  end.

Definition entropy_exact (password : str) : R :=
  (entropy_loop_exact (values (Counter password)) (IZR (len password)) 0
   * IZR (len password))%R.

(** The exact value of a finite float and of a [num], as a rational. *)
Definition float_to_Q (x : float) : option Q :=
  match Prim2SF x with
  | S754_zero _ => Some (inject_Z 0)
  | S754_finite s m e =>
      let a := if 0 <=? e then inject_Z (Z.pos m * 2 ^ e)
               else Qmake (Z.pos m) (Z.to_pos (2 ^ (- e))) in
      Some (if s then Qopp a else a)
  | _ => None
  end.

Definition num_to_Q (a : num) : option Q :=
  match a with
  | Int z => Some (inject_Z z)
  | Float f => float_to_Q f
  end.

(** Python's [x >= 0] on a [num]. *)
Definition num_ge0 (a : num) : bool :=
  match a with
  | Int z => 0 <=? z
  | Float f => PrimFloat.leb 0%float f
  end.

(** ** Auxiliary readings used in the proofs *)

(** The test of the loop body, read off the list directly. *)
Definition triple_at (s : str) (i : nat) : bool :=
  match nth_error s i, nth_error s (i + 1), nth_error s (i + 2) with
  | Some a, Some b, Some c => N.eqb a b && N.eqb b c
  | _, _, _ => false
  end.

(** The sum of a list of counts. *)
Definition zsum (l : list Z) : Z := fold_right Z.add 0 l.

(** The nine entries [analyze_password] computes, given the results of the
    two calls that could raise. *)
Definition checks_of `{Unicode} (password : str) (rep : bool) (ent : num)
  : Checks :=
  {| length := len password;
     has_uppercase := re_search_class (in_range 65 90) password;
     has_lowercase := re_search_class (in_range 97 122) password;
     has_digits := re_search_class isdecimal password;
     has_special := re_search_class is_special password;
     is_common := set_mem (lower password) common_passwords;
     has_repeated := rep;
     has_sequential := _check_sequential password;
     entropy := ent |}.

(** ** [check_breach]

    Bytes are integers in 0..255. *)

Definition is_surrogate (c : codepoint) : bool := in_range 55296 57343 c.

(** [c.encode('utf-8')] for one character, with the default strict error
    handler: a surrogate (U+D800..U+DFFF) cannot be encoded.  A Python
    [str] holds no value from 1114112 (0x110000) on. *)
Definition utf8_encode_char (c : codepoint) : option (list Z) :=
  let z := Z.of_N c in
  if z <? 128 then Some [z]
  else if z <? 2048 then Some [192 + z / 64; 128 + z mod 64]
  else if z <? 65536 then
    if is_surrogate c then None
    else Some [224 + z / 4096; 128 + (z / 64) mod 64; 128 + z mod 64]
  else if z <? 1114112 then
    Some [240 + z / 262144; 128 + (z / 4096) mod 64;
          128 + (z / 64) mod 64; 128 + z mod 64]
  else None.

(** [password.encode('utf-8')]; [None] stands for [UnicodeEncodeError]. *)
Fixpoint utf8_encode (s : str) : option (list Z) :=
  match s with
  | [] => Some []
  | c :: rest =>
      match utf8_encode_char c, utf8_encode rest with
      | Some bytes, Some more => Some (bytes ++ more)
      | _, _ => None
      end
  end.

(** [hashlib.sha1] is the runtime's: a function from bytes to a digest of
    twenty bytes. *)
Class Hashlib : Type := {
  sha1 : list Z -> list Z;
  sha1_length : forall data, List.length (sha1 data) = 20%nat;
  sha1_bytes : forall data, Forall (fun b => 0 <= b < 256) (sha1 data)
}.

(** [hexdigest()]: two lower-case hexadecimal digits per byte. *)
Definition hex_digit (d : Z) : codepoint :=
  nth (Z.to_nat d) (u "0123456789abcdef") 0%N.

Definition hex_byte (b : Z) : str := [hex_digit (b / 16); hex_digit (b mod 16)].

Definition hexdigest (digest : list Z) : str := flat_map hex_byte digest.

(** [str.upper] on a hexadecimal digest, which is ASCII. *)
Definition ascii_upper (c : codepoint) : codepoint :=
  if in_range 97 122 c then (c - 32)%N else c.

(** [check_breach] *)
Definition check_breach `{Hashlib} (password : str) : option str :=
  match utf8_encode password with
  | None => None
  | Some data =>
      let sha1_hash := map ascii_upper (hexdigest (sha1 data)) in
      let prefix := firstn 5 sha1_hash in
      Some prefix
  end.

(** The value of the first twenty bits of a digest. *)
Definition top20 (digest : list Z) : Z :=
  (nth 0 digest 0 * 65536 + nth 1 digest 0 * 256 + nth 2 digest 0) / 16.

(** Five upper-case hexadecimal digits of a number below [2^20]. *)
Definition hex5 (n : Z) : str :=
  map (fun k => ascii_upper (hex_digit ((n / 16 ^ k) mod 16))) [4; 3; 2; 1; 0].

(** The value of an upper-case hexadecimal digit. *)
Definition hex_value (c : codepoint) : Z :=
  if in_range 48 57 c then Z.of_N c - 48 else Z.of_N c - 55.

(** The number five upper-case hexadecimal digits denote. *)
Definition hex5_value (s : str) : Z :=
  fold_left (fun acc c => 16 * acc + hex_value c) s 0.

(** *** SHA-1 (FIPS 180-4), an instance of the interface *)

Definition w32 (x : Z) : Z := x mod 4294967296.

Definition rotl (n x : Z) : Z :=
  w32 (Z.lor (Z.shiftl x n) (Z.shiftr x (32 - n))).

Definition be_bytes (width : nat) (x : Z) : list Z :=
  map (fun i => (x / 256 ^ Z.of_nat (width - 1 - i)) mod 256) (seq 0 width).

Definition sha1_pad (data : list Z) : list Z :=
  let l := len data in
  data ++ [128] ++ repeat 0 (Z.to_nat ((55 - l) mod 64)) ++ be_bytes 8 (8 * l).

Fixpoint be_words (fuel : nat) (bytes : list Z) : list Z :=
  match fuel, bytes with
  | S fuel', a :: b :: c :: d :: rest =>
      (a * 16777216 + b * 65536 + c * 256 + d) :: be_words fuel' rest
  | _, _ => []
  end.

Fixpoint sha1_schedule (n : nat) (w : list Z) : list Z :=
  match n with
  | O => w
  | S n' =>
      let t := List.length w in
      let x := Z.lxor (Z.lxor (nth (t - 3) w 0) (nth (t - 8) w 0))
                      (Z.lxor (nth (t - 14) w 0) (nth (t - 16) w 0)) in
      sha1_schedule n' (w ++ [rotl 1 x])
  end.

Definition sha1_state : Type := (Z * Z * Z * Z * Z)%type.

Definition sha1_round (st : sha1_state) (tw : nat * Z) : sha1_state :=
  let '(a, b, c, d, e) := st in
  let '(t, wt) := tw in
  let '(f, k) :=
    if (t <? 20)%nat then
      (Z.lor (Z.land b c) (Z.land (Z.lxor b 4294967295) d), 1518500249)
    else if (t <? 40)%nat then (Z.lxor (Z.lxor b c) d, 1859775393)
    else if (t <? 60)%nat then
      (Z.lor (Z.lor (Z.land b c) (Z.land b d)) (Z.land c d), 2400959708)
    else (Z.lxor (Z.lxor b c) d, 3395469782) in
  (w32 (rotl 5 a + f + e + k + wt), a, rotl 30 b, c, d).

Definition sha1_block (h : sha1_state) (block : list Z) : sha1_state :=
  let w := sha1_schedule 64 block in
  let '(a, b, c, d, e) := fold_left sha1_round (combine (seq 0 80) w) h in
  let '(h0, h1, h2, h3, h4) := h in
  (w32 (h0 + a), w32 (h1 + b), w32 (h2 + c), w32 (h3 + d), w32 (h4 + e)).

Fixpoint sha1_blocks (fuel : nat) (h : sha1_state) (ws : list Z)
  : sha1_state :=
  match fuel, ws with
  | S fuel', _ :: _ =>
      sha1_blocks fuel' (sha1_block h (firstn 16 ws)) (skipn 16 ws)
  | _, _ => h
  end.

Definition sha1_fips (data : list Z) : list Z :=
  let padded := sha1_pad data in
  let ws := be_words (List.length padded) padded in
  let '(h0, h1, h2, h3, h4) :=
    sha1_blocks (List.length ws)
      (1732584193, 4023233417, 2562383102, 271733878, 3285377520) ws in
  flat_map (be_bytes 4) [h0; h1; h2; h3; h4].

Lemma sha1_fips_length (data : list Z) :
  List.length (sha1_fips data) = 20%nat.
Proof.
  unfold sha1_fips.
  destruct (sha1_blocks _ _ _) as [[[[h0 h1] h2] h3] h4]. reflexivity.
Qed.

Lemma sha1_fips_bytes (data : list Z) :
  Forall (fun b => 0 <= b < 256) (sha1_fips data).
Proof.
  unfold sha1_fips.
  destruct (sha1_blocks _ _ _) as [[[[h0 h1] h2] h3] h4].
  cbn [flat_map be_bytes seq map app].
  repeat constructor; apply Z.mod_pos_bound; lia.
Qed.

Definition fips_hashlib : Hashlib :=
  {| sha1 := sha1_fips;
     sha1_length := sha1_fips_length;
     sha1_bytes := sha1_fips_bytes |}.

(** ** [display_results] and [main]

    What the program does at the console is a list of events: a call of
    [print] writes its text and a newline to standard output, a call of
    [getpass] shows its prompt and reads one line without echo. *)
Inductive event : Type :=
| Print (text : str)
| Getpass (prompt : str).

Definition newline : codepoint := 10%N.
Definition check_mark : codepoint := 10003%N.
Definition ballot_x : codepoint := 10007%N.
Definition warning_sign : codepoint := 9888%N.

(** [s * n] *)
Definition str_repeat (s : str) (n : nat) : str := List.concat (repeat s n).

(** [str(z)] for an [int], as an f-string inserts it. *)
Definition str_of_Z (z : Z) : str := u (NilZero.string_of_int (Z.to_int z)).

(** [enumerate(items, start)] *)
Fixpoint enumerate {A : Type} (items : list A) (start : Z) : list (Z * A) :=
  match items with
  | [] => []
  | x :: rest => (start, x) :: enumerate rest (start + 1)
  end.

Definition rule : str := str_repeat (u "=") 50.

Definition prompt : str := u "Enter password to analyze (or 'quit' to exit): ".

Definition farewell : str :=
  [newline] ++ u "Thank you for using Password Strength Analyzer!".

Definition empty_notice : str :=
  u "Password cannot be empty. Please try again." ++ [newline].

Definition no_issues_line : str :=
  u "  " ++ [check_mark] ++ u " No common issues detected".

Definition class_line (present : bool) (name : str) : str :=
  u "  " ++ [if present then check_mark else ballot_x] ++ u " " ++ name.

Definition warning_line (what : str) : str :=
  u "  " ++ [warning_sign] ++ u " " ++ what.

(** How the run of [main] ends: it returns after the farewell, or an
    exception leaves it: [EOFError] from [getpass] when the input is
    exhausted, or an exception of the analysis. *)
Inductive outcome : Type :=
| Returned
| EOFError
| Uncaught (e : exn).

Section Console.

Context `{Unicode}.

(** [str(x)] of a float, the shortest decimal that reads back as [x]:
    the runtime's, taken as given. *)
Variable float_repr : float -> str.

Definition str_of_num (x : num) : str :=
  match x with
  | Int z => str_of_Z z
  | Float f => float_repr f
  end.

(** The lines of the Security Issues section. *)
Definition issue_lines (results : Checks) : list event :=
  (if is_common results
   then [Print (warning_line (u "Common password detected"))] else [])
  ++ (if has_repeated results
      then [Print (warning_line (u "Contains repeated characters"))]
      else [])
  ++ (if has_sequential results
      then [Print (warning_line (u "Contains sequential patterns"))]
      else [])
  ++ (if negb (is_common results || has_repeated results
               || has_sequential results)
      then [Print no_issues_line] else []).

Definition recommendation_line (entry : Z * string) : event :=
  let '(i, rec) := entry in
  Print (u "  " ++ str_of_Z i ++ u ". " ++ u rec).

(** [display_results] *)
Definition display_results (results : Report) : list event :=
  [ Print ([newline] ++ rule);
    Print (u "PASSWORD ANALYSIS RESULTS");
    Print rule;
    Print ([newline] ++ u "Strength: " ++ u (strength_label results)
           ++ u " (" ++ str_of_Z (strength_score results) ++ u "/100)");
    Print (u "Length: " ++ str_of_Z (length (checks results))
           ++ u " characters");
    Print (u "Entropy: " ++ str_of_num (entropy (checks results))
           ++ u " bits");
    Print ([newline] ++ u "Character Types:");
    Print (class_line (has_uppercase (checks results))
             (u "Uppercase letters"));
    Print (class_line (has_lowercase (checks results))
             (u "Lowercase letters"));
    Print (class_line (has_digits (checks results)) (u "Numbers"));
    Print (class_line (has_special (checks results))
             (u "Special characters"));
    Print ([newline] ++ u "Security Issues:") ]
  ++ issue_lines (checks results)
  ++ [ Print ([newline] ++ u "Recommendations:") ]
  ++ map recommendation_line (enumerate (recommendations results) 1)
  ++ [ Print ([newline] ++ rule) ].

(** The [while True] loop of [main], over the lines [getpass] will
    return. *)
Fixpoint main_loop (inputs : list str) : list event * outcome :=
  match inputs with
  | [] => ([Getpass prompt], EOFError)
  | password :: rest =>
      if str_eqb (lower password) (u "quit") then
        ([Getpass prompt; Print farewell], Returned)
      else if is_empty password then
        let '(events, out) := main_loop rest in
        (Getpass prompt :: Print empty_notice :: events, out)
      else
        match analyze_password password with
        | Raise e => ([Getpass prompt], Uncaught e)
        | Ok results =>
            let '(events, out) := main_loop rest in
            (Getpass prompt
             :: display_results results ++ Print [newline] :: events,
             out)
        end
  end.

Definition banner : list event :=
  [ Print rule;
    Print (u "PASSWORD STRENGTH ANALYZER");
    Print rule;
    Print ([newline]
           ++ u "This tool evaluates password security without storing");
    Print (u "or transmitting your password anywhere." ++ [newline]) ].

(** [main] *)
Definition main (inputs : list str) : list event * outcome :=
  let '(events, out) := main_loop inputs in
  (banner ++ events, out).

(** The session read off the input: the entries before the first one
    that lowercases to quit are answered one by one. *)
Definition is_quit (password : str) : bool :=
  str_eqb (lower password) (u "quit").

Fixpoint before_quit (inputs : list str) : list str :=
  match inputs with
  | [] => []
  | password :: rest =>
      if is_quit password then [] else password :: before_quit rest
  end.

Definition entry_events (password : str) : list event :=
  Getpass prompt
  :: (if is_empty password then [Print empty_notice]
      else match analyze_password password with
           | Ok results => display_results results ++ [Print [newline]]
           | Raise _ => []
           end).

End Console.

(** * Properties *)

(** ** Indexing and the repeated-run scan *)

Lemma getitem_in_range (s : str) (i : nat) (c : codepoint) :
  nth_error s i = Some c -> getitem s (Z.of_nat i) = Ok c.
Proof.
  intros Hn. unfold getitem.
  destruct (Z.ltb_spec (Z.of_nat i) 0) as [Hneg | _]; [lia |].
  destruct (Z.ltb_spec (Z.of_nat i) 0) as [Hneg | _]; [lia |].
  now rewrite Nat2Z.id, Hn.
Qed.

Lemma nth_error_in_range {A : Type} (l : list A) (i : nat) :
  (i < List.length l)%nat -> exists x, nth_error l i = Some x.
Proof.
  intros Hi. destruct (nth_error l i) eqn:E; [eauto |].
  apply nth_error_None in E. lia.
Qed.

Lemma triple_at_run (s : str) (i : nat) :
  triple_at s i = true <-> run_at s i.
Proof.
  unfold triple_at, run_at. split.
  - destruct (nth_error s i) as [a |]; [| discriminate].
    destruct (nth_error s (i + 1)) as [b |]; [| discriminate].
    destruct (nth_error s (i + 2)) as [c |]; [| discriminate].
    intros H. apply andb_true_iff in H. destruct H as [Hab Hbc].
    apply N.eqb_eq in Hab, Hbc. subst. eauto.
  - intros (c & -> & -> & ->). now rewrite N.eqb_refl.
Qed.

Lemma repeated_at_in_range (s : str) (i : nat) :
  (i + 2 < List.length s)%nat ->
  repeated_at s (Z.of_nat i) = Ok (triple_at s i).
Proof.
  intros Hi.
  destruct (nth_error_in_range s i) as [a Ha]; [lia |].
  destruct (nth_error_in_range s (i + 1)) as [b Hb]; [lia |].
  destruct (nth_error_in_range s (i + 2)) as [c Hc]; [lia |].
  unfold repeated_at, triple_at. rewrite Ha, Hb, Hc.
  rewrite (getitem_in_range s i a Ha). cbn [bind].
  replace (Z.of_nat i + 1) with (Z.of_nat (i + 1)) by lia.
  rewrite (getitem_in_range s (i + 1) b Hb). cbn [bind].
  destruct (N.eqb a b); [| reflexivity].
  replace (Z.of_nat i + 2) with (Z.of_nat (i + 2)) by lia.
  now rewrite (getitem_in_range s (i + 2) c Hc).
Qed.

Lemma repeated_loop_seq (s : str) (n k : nat) :
  (k + n + 2 <= List.length s)%nat ->
  repeated_loop s (map Z.of_nat (seq k n)) = Ok (existsb (triple_at s) (seq k n)).
Proof.
  revert k. induction n as [| n IH]; intros k Hk; [reflexivity |].
  cbn [seq map repeated_loop existsb].
  rewrite repeated_at_in_range by lia. cbn [bind].
  destruct (triple_at s k); [reflexivity |].
  apply IH. lia.
Qed.

Lemma check_repeated_chars_scan (s : str) :
  _check_repeated_chars s =
  Ok (existsb (triple_at s) (seq 0 (List.length s - 2))).
Proof.
  unfold _check_repeated_chars, range.
  replace (Z.to_nat (len s - 2)) with (List.length s - 2)%nat
    by (unfold len; lia).
  destruct (Nat.le_gt_cases 2 (List.length s)) as [Hlong | Hshort].
  - apply repeated_loop_seq. lia.
  - replace (List.length s - 2)%nat with 0%nat by lia. reflexivity.
Qed.

Lemma check_repeated_chars_total (s : str) :
  exists b, _check_repeated_chars s = Ok b.
Proof. rewrite check_repeated_chars_scan. eauto. Qed.

Lemma run_at_bound (s : str) (i : nat) :
  run_at s i -> (i + 2 < List.length s)%nat.
Proof.
  intros (c & _ & _ & H). apply nth_error_Some. congruence.
Qed.

(** C7: the repeated-run check never raises: on every string it returns a
    boolean, which is true exactly when three equal characters stand at
    some positions [i], [i+1], [i+2]; on strings shorter than three
    characters it returns false. *)
Theorem C7_check_repeated_chars_total (password : str) :
  exists b, _check_repeated_chars password = Ok b
         /\ (b = true <-> exists i, run_at password i)
         /\ (len password < 3 -> b = false).
Proof.
  rewrite check_repeated_chars_scan. eexists. split; [reflexivity |]. split.
  - rewrite existsb_exists. split.
    + intros (i & _ & Hi). exists i. now apply triple_at_run.
    + intros (i & Hi). exists i. split; [| now apply triple_at_run].
      apply run_at_bound in Hi. apply in_seq. lia.
  - intros Hlen. unfold len in Hlen.
    replace (List.length password - 2)%nat with 0%nat by lia. reflexivity.
Qed.

(** ** The analysis always returns a report *)

Lemma entropy_loop_total (length : Z) (counts : list Z) (e : num) :
  length <> 0 -> exists e', entropy_loop counts length e = Ok e'.
Proof.
  intros Hlen. revert e. induction counts as [| count rest IH]; intros e.
  - now exists e.
  - cbn [entropy_loop]. unfold truediv.
    destruct (Z.eqb_spec length 0) as [E | _]; [contradiction |].
    cbn [bind]. apply IH.
Qed.

Lemma calculate_entropy_total (password : str) :
  exists e, _calculate_entropy password = Ok e.
Proof.
  unfold _calculate_entropy. destruct password as [| c rest].
  - now exists (Int 0).
  - destruct (entropy_loop_total (len (c :: rest))
                (values (Counter (c :: rest))) (Int 0)) as [e He].
    + unfold len. cbn [List.length]. lia.
    + rewrite He. cbn [bind]. eauto.
Qed.

Lemma analyze_password_returns `{Unicode} (password : str) :
  exists rep ent,
    _check_repeated_chars password = Ok rep
    /\ _calculate_entropy password = Ok ent
    /\ analyze_password password =
       Ok {| checks := checks_of password rep ent;
             strength_score := _calculate_strength (checks_of password rep ent);
             strength_label :=
               _get_strength_label
                 (_calculate_strength (checks_of password rep ent));
             recommendations :=
               _generate_recommendations (checks_of password rep ent) |}.
Proof.
  destruct (check_repeated_chars_total password) as [rep Hrep].
  destruct (calculate_entropy_total password) as [ent Hent].
  exists rep, ent. split; [assumption |]. split; [assumption |].
  unfold analyze_password. rewrite Hrep, Hent. reflexivity.
Qed.

(** ** Score *)

Lemma add_if_delta (cond : bool) (d score : Z) :
  add_if cond d score = score + delta cond d.
Proof. destruct cond; cbn; lia. Qed.

Lemma delta_neg (cond : bool) (d : positive) :
  delta cond (Z.neg d) = - delta cond (Z.pos d).
Proof. destruct cond; reflexivity. Qed.

Lemma calculate_strength_policy (results : Checks) :
  _calculate_strength results = policy_score results.
Proof.
  unfold _calculate_strength, policy_score, policy_sum.
  rewrite !add_if_delta, !Z.geb_leb, !delta_neg. lia.
Qed.

Lemma calculate_strength_bounds (results : Checks) :
  0 <= _calculate_strength results <= 100.
Proof. unfold _calculate_strength. lia. Qed.

(** C1: for every password the analysis returns a report whose score is
    the clamped sum of the deltas of the scoring table, evaluated on the
    report's own checks, and therefore lies between 0 and 100. *)
Theorem C1_score_is_clamped_policy `{Unicode} (password : str) :
  exists report,
    analyze_password password = Ok report
    /\ length (checks report) = len password
    /\ strength_score report = policy_score (checks report)
    /\ strength_score report
       = Z.max 0 (Z.min 100 (policy_sum (checks report)))
    /\ 0 <= strength_score report <= 100.
Proof.
  destruct (analyze_password_returns password) as (rep & ent & _ & _ & Hrun).
  eexists. split; [exact Hrun |]. cbn [checks strength_score].
  split; [reflexivity |].
  split; [apply calculate_strength_policy |].
  split; [apply calculate_strength_policy |].
  apply calculate_strength_bounds.
Qed.

Lemma delta_divide (cond : bool) (d : Z) : (5 | d) -> (5 | delta cond d).
Proof. intros Hd. destruct cond; cbn; [assumption | apply Z.divide_0_r]. Qed.

Lemma clamp_divide (x : Z) : (5 | x) -> (5 | Z.max 0 (Z.min 100 x)).
Proof.
  intros [k ->]. exists (Z.max 0 (Z.min 20 k)). lia.
Qed.

Lemma calculate_strength_divide (results : Checks) :
  (5 | _calculate_strength results).
Proof.
  rewrite calculate_strength_policy. apply clamp_divide.
  unfold policy_sum.
  repeat first [ apply Z.divide_sub_r | apply Z.divide_add_r ];
    apply delta_divide;
    first [ now exists 4 | now exists 3 | now exists 2 | now exists 10 ].
Qed.

(** C10: the score of every password is a multiple of 5. *)
Theorem C10_score_multiple_of_5 `{Unicode} (password : str) :
  exists report,
    analyze_password password = Ok report
    /\ (5 | strength_score report)
    /\ strength_score report mod 5 = 0.
Proof.
  destruct (analyze_password_returns password) as (rep & ent & _ & _ & Hrun).
  eexists. split; [exact Hrun |]. cbn [strength_score].
  pose proof (calculate_strength_divide (checks_of password rep ent)) as Hd.
  split; [exact Hd |].
  apply Z.mod_divide; [lia | exact Hd].
Qed.

(** ** Label *)

(** C5: the label is a step function of the score with inclusive lower
    bounds 40, 70 and 90, and it is one of the four labels.  The code
    spells the top label with a space. *)
Theorem C5_label_bands (score : Z) :
  (_get_strength_label score = "Weak"%string <-> score < 40)
  /\ (_get_strength_label score = "Moderate"%string <-> 40 <= score < 70)
  /\ (_get_strength_label score = "Strong"%string <-> 70 <= score < 90)
  /\ (_get_strength_label score = "Very Strong"%string <-> 90 <= score)
  /\ In (_get_strength_label score)
        ["Weak"; "Moderate"; "Strong"; "Very Strong"]%string.
Proof.
  unfold _get_strength_label.
  destruct (Z.ltb_spec score 40); [| destruct (Z.ltb_spec score 70);
                                     [| destruct (Z.ltb_spec score 90)]];
    repeat split; intros; try lia; try discriminate; cbn; auto.
Qed.

(** ** Recommendations *)

Lemma generate_recommendations_spec (results : Checks) :
  _generate_recommendations results = advice_spec results.
Proof.
  unfold _generate_recommendations, advice_spec, fired_advice, advice_table.
  destruct (length results <? 12), (has_uppercase results),
    (has_lowercase results), (has_digits results), (has_special results),
    (is_common results), (has_repeated results), (has_sequential results);
    reflexivity.
Qed.

Lemma advice_spec_nonempty (results : Checks) : advice_spec results <> [].
Proof. unfold advice_spec. destruct (fired_advice results); discriminate. Qed.

Lemma fired_advice_length (results : Checks) :
  List.length (fired_advice results)
  = List.length (filter (fun b => b) (map fst (advice_table results))).
Proof.
  unfold fired_advice. rewrite length_map.
  induction (advice_table results) as [| [b a] t IH]; [reflexivity |].
  cbn. destruct b; cbn; now rewrite IH.
Qed.

(** C6: the recommendations of every password are the advice entries of
    the conditions that hold, one each, in the fixed order of the eight
    conditions; when none holds the list is the single fallback entry; the
    list is never empty. *)
Theorem C6_recommendations_ordered_nonempty `{Unicode} (password : str) :
  exists report,
    analyze_password password = Ok report
    /\ recommendations report = advice_spec (checks report)
    /\ (fired_advice (checks report) <> [] ->
        recommendations report = fired_advice (checks report)
        /\ List.length (recommendations report)
           = List.length (filter (fun b => b)
                            (map fst (advice_table (checks report)))))
    /\ (fired_advice (checks report) = [] ->
        recommendations report = [fallback_advice])
    /\ recommendations report <> [].
Proof.
  destruct (analyze_password_returns password) as (rep & ent & _ & _ & Hrun).
  eexists. split; [exact Hrun |]. cbn [checks recommendations].
  rewrite generate_recommendations_spec.
  split; [reflexivity |]. split; [| split].
  - intros Hfired. unfold advice_spec.
    destruct (fired_advice (checks_of password rep ent)) as [| a l] eqn:E;
      [contradiction |].
    split; [reflexivity |]. rewrite <- E. apply fired_advice_length.
  - intros Hnone. unfold advice_spec. now rewrite Hnone.
  - apply advice_spec_nonempty.
Qed.

(** ** Substring search and the sequential-pattern check *)

Lemma startswith_spec (needle hay : str) :
  startswith needle hay = true <-> exists post, hay = needle ++ post.
Proof.
  revert hay. induction needle as [| a needle IH]; intros hay; cbn.
  - split; eauto.
  - destruct hay as [| b hay].
    + split; [discriminate | intros [post Hp]; discriminate].
    + rewrite andb_true_iff, N.eqb_eq, IH. split.
      * intros [-> [post ->]]. eauto.
      * intros [post Hp]. injection Hp as -> ->. eauto.
Qed.

Lemma contains_spec (needle hay : str) :
  contains needle hay = true <-> substring needle hay.
Proof.
  unfold substring. induction hay as [| b hay IH]; cbn [contains].
  - rewrite orb_false_r, startswith_spec. split.
    + intros [post Hp]. now exists [], post.
    + intros (pre & post & Hp). destruct pre; [eauto | discriminate].
  - rewrite orb_true_iff, startswith_spec, IH. split.
    + intros [[post Hp] | (pre & post & Hp)].
      * now exists [], post.
      * exists (b :: pre), post. cbn. now rewrite Hp.
    + intros (pre & post & Hp). destruct pre as [| a pre].
      * left. eauto.
      * right. injection Hp as _ Hp. eauto.
Qed.

Lemma sequential_loop_existsb (seqs : list str) (password_lower : str) :
  sequential_loop seqs password_lower
  = existsb (fun sq => contains sq password_lower
                       || contains (rev sq) password_lower) seqs.
Proof.
  induction seqs as [| sq rest IH]; [reflexivity |].
  cbn [sequential_loop existsb]. rewrite IH.
  now destruct (contains sq password_lower || contains (rev sq) password_lower).
Qed.

Lemma check_sequential_spec `{Unicode} (password : str) :
  _check_sequential password = true <->
  exists m, In m sequences
         /\ (substring m (lower password)
             \/ substring (rev m) (lower password)).
Proof.
  unfold _check_sequential. rewrite sequential_loop_existsb, existsb_exists.
  split; intros (m & Hin & Hm); exists m; (split; [exact Hin |]).
  - apply orb_true_iff in Hm. now rewrite <- !contains_spec.
  - apply orb_true_iff. now rewrite !contains_spec.
Qed.

Lemma check_sequential_ten `{Unicode} (password : str) :
  _check_sequential password = true <->
  exists m, In m motifs_and_reversals /\ substring m (lower password).
Proof.
  rewrite check_sequential_spec. split.
  - intros (m & Hin & Hm).
    assert (Hrev : In (rev m) motifs_and_reversals).
    { cbn in Hin.
      repeat (destruct Hin as [<- | Hin]; [cbn; tauto |]). contradiction. }
    assert (Hfwd : In m motifs_and_reversals).
    { cbn in Hin.
      repeat (destruct Hin as [<- | Hin]; [cbn; tauto |]). contradiction. }
    destruct Hm; eauto.
  - intros (m & Hin & Hm).
    assert (Hcase : In m sequences \/ In (rev m) sequences).
    { cbn in Hin.
      repeat (destruct Hin as [<- | Hin]; [cbn; tauto |]). contradiction. }
    destruct Hcase as [Hfwd | Hrev].
    + exists m. tauto.
    + exists (rev m). rewrite rev_involutive. tauto.
Qed.

Lemma substring_same_length (needle hay : str) :
  substring needle hay -> List.length needle = List.length hay ->
  needle = hay.
Proof.
  intros (pre & post & ->) Hlen. rewrite !length_app in Hlen.
  destruct pre; [| cbn in Hlen; lia].
  destruct post; [| cbn in Hlen; lia].
  cbn. now rewrite app_nil_r.
Qed.

Lemma search_digits_ascii `{Unicode} (s : str) :
  forallb is_ascii s = true ->
  re_search_class isdecimal s = re_search_class (in_range 48 57) s.
Proof.
  unfold re_search_class. induction s as [| c s IH]; [reflexivity |].
  cbn [forallb existsb]. intros Hs. apply andb_true_iff in Hs.
  destruct Hs as [Hc Hs]. now rewrite IH, isdecimal_ascii.
Qed.

Lemma check_sequential_ascii `{Unicode} (s : str) :
  forallb is_ascii s = true ->
  _check_sequential s = sequential_loop sequences (map ascii_lower s).
Proof. intros Hs. unfold _check_sequential. now rewrite lower_ascii. Qed.

(** C8: the sequential-pattern flag of every password is set exactly when
    its lowercased form contains one of the five motifs or the reversal of
    one, that is, one of the ten strings abc, 123, xyz, qwe, asd, cba, 321,
    zyx, ewq, dsa.  A three-character string triggers it only if its
    lowercased form is one of the ten; bcd and 234 do not. *)
Theorem C8_sequential_fixed_motifs `{Unicode} (password : str) :
  exists report,
    analyze_password password = Ok report
    /\ (has_sequential (checks report) = true <->
        exists m, In m sequences
               /\ (substring m (lower password)
                   \/ substring (rev m) (lower password)))
    /\ (has_sequential (checks report) = true <->
        exists m, In m motifs_and_reversals /\ substring m (lower password))
    /\ (List.length (lower password) = 3%nat ->
        has_sequential (checks report) = true ->
        In (lower password) motifs_and_reversals)
    /\ _check_sequential (u "bcd") = false
    /\ _check_sequential (u "234") = false.
Proof.
  destruct (analyze_password_returns password) as (rep & ent & _ & _ & Hrun).
  eexists. split; [exact Hrun |]. cbn [checks has_sequential checks_of].
  split; [apply check_sequential_spec |].
  split; [apply check_sequential_ten |].
  split; [| split; rewrite check_sequential_ascii; reflexivity].
  intros Hlen Hseq. apply check_sequential_ten in Hseq.
  destruct Hseq as (m & Hin & Hm).
  rewrite <- (substring_same_length m (lower password) Hm); [exact Hin |].
  rewrite Hlen. cbn in Hin.
  repeat (destruct Hin as [<- | Hin]; [reflexivity |]). contradiction.
Qed.

(** ** Character classes *)

Lemma re_search_class_spec (cls : codepoint -> bool) (s : str) :
  re_search_class cls s = true <-> exists c, In c s /\ cls c = true.
Proof. apply existsb_exists. Qed.

Lemma in_range_spec (lo hi c : N) :
  in_range lo hi c = true <-> (lo <= c <= hi)%N.
Proof.
  unfold in_range. rewrite andb_true_iff, !N.leb_le. tauto.
Qed.

Lemma search_none (cls : codepoint -> bool) (s : str) :
  (forall c, In c s -> cls c = false) -> re_search_class cls s = false.
Proof.
  intros Hall. destruct (re_search_class cls s) eqn:E; [| reflexivity].
  apply re_search_class_spec in E. destruct E as (c & Hin & Hc).
  rewrite (Hall c Hin) in Hc. discriminate.
Qed.

(** C9: the uppercase and lowercase flags look for the ASCII letters A-Z
    (65..90) and a-z (97..122) only, so a password made of non-ASCII
    characters sets neither, whatever their case; the digit flag looks for
    any Unicode decimal digit, and the non-ASCII digit U+0661 alone sets
    it. *)
Theorem C9_classes_ascii_letters_unicode_digits `{Unicode} (password : str) :
  exists report,
    analyze_password password = Ok report
    /\ (has_uppercase (checks report) = true <->
        exists c, In c password /\ (65 <= c <= 90)%N)
    /\ (has_lowercase (checks report) = true <->
        exists c, In c password /\ (97 <= c <= 122)%N)
    /\ (has_digits (checks report) = true <->
        exists c, In c password /\ isdecimal c = true)
    /\ ((forall c, In c password -> (128 <= c)%N) ->
        has_uppercase (checks report) = false
        /\ has_lowercase (checks report) = false)
    /\ (In 1633%N password -> has_digits (checks report) = true)
    /\ is_ascii 1633%N = false.
Proof.
  destruct (analyze_password_returns password) as (rep & ent & _ & _ & Hrun).
  eexists. split; [exact Hrun |].
  cbn [checks has_uppercase has_lowercase has_digits checks_of].
  split; [| split; [| split; [| split; [| split]]]].
  - rewrite re_search_class_spec.
    split; intros (c & Hin & Hc); exists c; split; auto;
      now apply in_range_spec.
  - rewrite re_search_class_spec.
    split; intros (c & Hin & Hc); exists c; split; auto;
      now apply in_range_spec.
  - apply re_search_class_spec.
  - intros Hall. split; apply search_none; intros c Hin;
      apply Hall in Hin; unfold in_range;
      destruct (N.leb_spec c 90), (N.leb_spec c 122);
      rewrite ?andb_false_r; try reflexivity; lia.
  - intros Hin. apply re_search_class_spec. exists 1633%N.
    split; [exact Hin |]. now apply isdecimal_arabic_indic.
  - reflexivity.
Qed.

(** ** The reference password abcDEF123!@# *)

Lemma analyze_abcDEF123 `{Unicode} :
  analyze_password (u "abcDEF123!@#") =
  Ok {| checks :=
          {| length := 12;
             has_uppercase := true;
             has_lowercase := true;
             has_digits := true;
             has_special := true;
             is_common := false;
             has_repeated := false;
             has_sequential := true;
             entropy := Float (-3.32)%float |};
        strength_score := 80;
        strength_label := "Strong";
        recommendations := ["Avoid sequential patterns (abc, 123)"%string] |}.
Proof.
  unfold analyze_password.
  rewrite search_digits_ascii by reflexivity.
  rewrite check_sequential_ascii by reflexivity.
  rewrite lower_ascii by reflexivity.
  vm_compute. reflexivity.
Qed.

(** C2, as the code has it: abcDEF123!@# has length 12, the sequential
    flag set, score 20 + 10 + 4 * 15 - 10 = 80 and label Strong. *)
Theorem C2_abcDEF123_scores_80_strong `{Unicode} :
  exists report,
    analyze_password (u "abcDEF123!@#") = Ok report
    /\ length (checks report) = 12
    /\ has_sequential (checks report) = true
    /\ policy_sum (checks report) = 80
    /\ strength_score report = 80
    /\ strength_label report = "Strong"%string.
Proof.
  eexists. split; [apply analyze_abcDEF123 |]. cbn. repeat split.
Qed.

(** C2, as stated, fails: whatever the Unicode tables, no report of
    abcDEF123!@# has the sequential flag, score 90 and the top label. *)
Lemma C2_abcDEF123_not_90 :
  ~ exists (U : Unicode) (report : Report),
      analyze_password (u "abcDEF123!@#") = Ok report
      /\ has_sequential (checks report) = true
      /\ strength_score report = 90
      /\ strength_label report = "Very Strong"%string.
Proof.
  intros (U & report & Hrun & _ & Hscore & _).
  rewrite analyze_abcDEF123 in Hrun. injection Hrun as <-.
  discriminate Hscore.
Qed.

(** ** Entropy estimate *)

(** C3: on the empty password the estimate is the integer 0, and no
    password makes the division raise; but the estimate of the one-letter
    password a is -3.32, which is negative. *)
Theorem C3_entropy_of_a_is_negative :
  _calculate_entropy [] = Ok (Int 0)
  /\ (forall password, exists e, _calculate_entropy password = Ok e)
  /\ _calculate_entropy (u "a") = Ok (Float (-3.32)%float)
  /\ num_ge0 (Float (-3.32)%float) = false.
Proof.
  split; [reflexivity |]. split; [apply calculate_entropy_total |].
  split; vm_compute; reflexivity.
Qed.

Lemma log2_half : log2 (1 / 2) = (-1)%R.
Proof.
  unfold log2. replace (1 / 2)%R with (/ 2)%R by lra.
  rewrite ln_Rinv by lra.
  pose proof ln_lt_2 as Hln. field. lra.
Qed.

Lemma log2_one : log2 1 = 0%R.
Proof. unfold log2. rewrite ln_1. pose proof ln_lt_2. field. lra. Qed.

Lemma shannon_total_a : shannon_total (u "a") = 0%R.
Proof.
  unfold shannon_total, shannon_per_symbol.
  replace (values (Counter (u "a"))) with [1] by (vm_compute; reflexivity).
  replace (len (u "a")) with 1 by (vm_compute; reflexivity).
  cbn [fold_right]. replace (1 / 1)%R with 1%R by lra.
  rewrite log2_one. lra.
Qed.

Lemma shannon_total_ab : shannon_total (u "ab") = 2%R.
Proof.
  unfold shannon_total, shannon_per_symbol.
  replace (values (Counter (u "ab"))) with [1; 1] by (vm_compute; reflexivity).
  replace (len (u "ab")) with 2 by (vm_compute; reflexivity).
  cbn [fold_right]. rewrite log2_half. lra.
Qed.

Lemma value_of_minus_3_32 :
  exists q, num_to_Q (Float (-3.32)%float) = Some q /\ (Q2R q < -3)%R.
Proof.
  eexists. split; [vm_compute; reflexivity |].
  replace (-3)%R with (Q2R (inject_Z (-3))) by (unfold Q2R; cbn; lra).
  apply Qlt_Rlt. reflexivity.
Qed.

(** C4: the estimate the code returns is not the Shannon formula of the
    specification.  For ab the formula gives 2 and for a it gives 0, while
    the code returns -3.32 for both. *)
Theorem C4_entropy_is_not_shannon :
  exists q,
    num_to_Q (Float (-3.32)%float) = Some q
    /\ _calculate_entropy (u "ab") = Ok (Float (-3.32)%float)
    /\ shannon_total (u "ab") = 2%R
    /\ (Q2R q < shannon_total (u "ab") - 5)%R
    /\ _calculate_entropy (u "a") = Ok (Float (-3.32)%float)
    /\ shannon_total (u "a") = 0%R
    /\ (Q2R q < shannon_total (u "a") - 3)%R.
Proof.
  destruct value_of_minus_3_32 as (q & Hq & Hlt).
  exists q. rewrite shannon_total_ab, shannon_total_a.
  repeat split; try assumption; try (vm_compute; reflexivity); lra.
Qed.

(** *** The sign of the estimate is not an effect of rounding

    In exact arithmetic the loop subtracts [3.321928 * (count/length)^2] for
    every distinct character, so its total is at most [-3.321928] on every
    non-empty password. *)

Lemma counter_incr_sum (c : codepoint) (m : list (codepoint * Z)) :
  zsum (values (counter_incr c m)) = zsum (values m) + 1.
Proof.
  induction m as [| [k v] m IH]; cbn; [reflexivity |].
  destruct (N.eqb k c); cbn; [lia |]. fold (values (counter_incr c m)).
  fold (values m). unfold zsum in IH. rewrite IH. lia.
Qed.

Lemma counter_incr_pos (c : codepoint) (m : list (codepoint * Z)) :
  Forall (fun v => 1 <= v) (values m) ->
  Forall (fun v => 1 <= v) (values (counter_incr c m)).
Proof.
  induction m as [| [k v] m IH]; cbn; intros Hm.
  - constructor; [lia | constructor].
  - inversion Hm as [| v' l' Hv Hl]; subst.
    destruct (N.eqb k c); cbn; constructor; try lia; auto.
Qed.

Lemma counter_fold_sum (s : str) (m : list (codepoint * Z)) :
  zsum (values (fold_left (fun m c => counter_incr c m) s m))
  = zsum (values m) + len s.
Proof.
  revert m. induction s as [| c s IH]; intros m; cbn [fold_left].
  - unfold len. cbn. lia.
  - rewrite IH, counter_incr_sum. unfold len. cbn [List.length]. lia.
Qed.

Lemma counter_fold_pos (s : str) (m : list (codepoint * Z)) :
  Forall (fun v => 1 <= v) (values m) ->
  Forall (fun v => 1 <= v)
    (values (fold_left (fun m c => counter_incr c m) s m)).
Proof.
  revert m. induction s as [| c s IH]; intros m Hm; cbn [fold_left]; auto.
  apply IH. now apply counter_incr_pos.
Qed.

Lemma entropy_loop_exact_bound (counts : list Z) (n e : R) :
  (0 < n)%R -> Forall (fun v => 1 <= v) counts ->
  (entropy_loop_exact counts n e
   <= e - 3.321928 * IZR (zsum counts) / (n * n))%R.
Proof.
  intros Hn Hpos. revert e.
  induction Hpos as [| c rest Hc Hrest IH]; intros e.
  - cbn. lra.
  - cbn [entropy_loop_exact]. change (zsum (c :: rest)) with (c + zsum rest).
    eapply Rle_trans; [apply IH |]. rewrite plus_IZR.
    assert (Hc1 : (1 <= IZR c)%R) by now apply IZR_le.
    assert (Hp : (0 < IZR c / n)%R) by (apply Rdiv_lt_0_compat; lra).
    destruct (Req_EM_T (IZR c / n) 0) as [E | _]; [lra |].
    assert (Hsq : (IZR c / (n * n) <= IZR c / n * (IZR c / n))%R).
    { replace (IZR c / (n * n))%R with (1 * IZR c / (n * n))%R by lra.
      replace (IZR c / n * (IZR c / n))%R with (IZR c * IZR c / (n * n))%R
        by (field; lra).
      apply Rmult_le_compat_r.
      - apply Rlt_le, Rinv_0_lt_compat. nra.
      - nra. }
    replace (3.321928 * (IZR c + IZR (zsum rest)) / (n * n))%R
      with (3.321928 * (IZR c / (n * n))
            + 3.321928 * IZR (zsum rest) / (n * n))%R by (field; lra).
    apply Rmult_le_compat_l with (r := 3.321928%R) in Hsq; lra.
Qed.

Lemma entropy_exact_negative (password : str) :
  password <> [] -> (entropy_exact password <= - 3.321928)%R.
Proof.
  intros Hne. unfold entropy_exact.
  assert (Hlen : (0 < IZR (len password))%R).
  { apply IZR_lt. destruct password; [contradiction |].
    unfold len. cbn [List.length]. lia. }
  pose proof (entropy_loop_exact_bound (values (Counter password))
                (IZR (len password)) 0 Hlen) as Hb.
  unfold Counter in *. rewrite counter_fold_sum in Hb. cbn [values map zsum
    fold_right] in Hb. rewrite Z.add_0_l in Hb.
  specialize (Hb (counter_fold_pos password [] (Forall_nil _))).
  revert Hb. generalize (values (fold_left
    (fun (m : list (codepoint * Z)) (c : codepoint) => counter_incr c m)
    password [])). intros counts.
  revert Hlen. generalize (IZR (len password)). intros n Hn Hb.
  replace (0 - 3.321928 * n / (n * n))%R with (- (3.321928 / n))%R in Hb
    by (field; lra).
  assert (Hk : (3.321928 / n * n = 3.321928)%R) by (field; lra).
  apply Rmult_le_compat_r with (r := n) in Hb; lra.
Qed.

(** ** Reference passwords of the specification *)

Ltac run_ascii :=
  unfold analyze_password;
  rewrite search_digits_ascii by reflexivity;
  rewrite check_sequential_ascii by reflexivity;
  rewrite lower_ascii by reflexivity;
  vm_compute; reflexivity.

Example analyze_empty `{Unicode} :
  analyze_password [] =
  Ok {| checks :=
          {| length := 0;
             has_uppercase := false;
             has_lowercase := false;
             has_digits := false;
             has_special := false;
             is_common := false;
             has_repeated := false;
             has_sequential := false;
             entropy := Int 0 |};
        strength_score := 0;
        strength_label := "Weak";
        recommendations :=
          [ "Increase length to at least 12 characters";
            "Add uppercase letters";
            "Add lowercase letters";
            "Include numbers";
            "Add special characters (!@#$%^&*)" ]%string |}.
Proof. run_ascii. Qed.

Example analyze_PASSWORD `{Unicode} :
  analyze_password (u "PASSWORD") =
  Ok {| checks :=
          {| length := 8;
             has_uppercase := true;
             has_lowercase := false;
             has_digits := false;
             has_special := false;
             is_common := true;
             has_repeated := false;
             has_sequential := false;
             entropy := Float (-4.15)%float |};
        strength_score := 0;
        strength_label := "Weak";
        recommendations :=
          [ "Increase length to at least 12 characters";
            "Add lowercase letters";
            "Include numbers";
            "Add special characters (!@#$%^&*)";
            "Avoid common passwords - choose something unique" ]%string |}.
Proof. run_ascii. Qed.

Example analyze_aaa111 `{Unicode} :
  analyze_password (u "aaa111") =
  Ok {| checks :=
          {| length := 6;
             has_uppercase := false;
             has_lowercase := true;
             has_digits := true;
             has_special := false;
             is_common := false;
             has_repeated := true;
             has_sequential := false;
             entropy := Float (-9.97)%float |};
        strength_score := 20;
        strength_label := "Weak";
        recommendations :=
          [ "Increase length to at least 12 characters";
            "Add uppercase letters";
            "Add special characters (!@#$%^&*)";
            "Remove repeated character sequences" ]%string |}.
Proof. run_ascii. Qed.

Example label_boundaries :
  map _get_strength_label [39; 40; 69; 70; 89; 90; 100]
  = [ "Weak"; "Moderate"; "Moderate"; "Strong"; "Strong";
      "Very Strong"; "Very Strong" ]%string.
Proof. reflexivity. Qed.

(** ** The theorems at a concrete table and password *)

Lemma C1_score_witness :
  exists report,
    analyze_password (H := basic_unicode) (u "Summer2024!") = Ok report
    /\ strength_score report = policy_score (checks report)
    /\ 0 <= strength_score report <= 100.
Proof.
  destruct (C1_score_is_clamped_policy (H := basic_unicode) (u "Summer2024!"))
    as (report & Hrun & _ & Hpol & _ & Hb).
  exists report. repeat split; try assumption; apply Hb.
Defined.

Lemma C2_abcDEF123_witness :
  exists report,
    analyze_password (H := basic_unicode) (u "abcDEF123!@#") = Ok report
    /\ strength_score report = 80
    /\ strength_label report = "Strong"%string.
Proof.
  destruct (C2_abcDEF123_scores_80_strong (H := basic_unicode))
    as (report & Hrun & _ & _ & _ & Hscore & Hlabel).
  exists report. repeat split; assumption.
Defined.

Lemma C6_recommendations_witness :
  exists report,
    analyze_password (H := basic_unicode) (u "Summer2024!") = Ok report
    /\ recommendations report <> [].
Proof.
  destruct (C6_recommendations_ordered_nonempty (H := basic_unicode)
              (u "Summer2024!")) as (report & Hrun & _ & _ & _ & Hne).
  exists report. split; assumption.
Defined.

Lemma C8_sequential_witness :
  exists report,
    analyze_password (H := basic_unicode) (u "Zyx-9") = Ok report
    /\ (has_sequential (checks report) = true <->
        exists m, In m motifs_and_reversals
               /\ substring m (@lower basic_unicode (u "Zyx-9"))).
Proof.
  destruct (C8_sequential_fixed_motifs (H := basic_unicode) (u "Zyx-9"))
    as (report & Hrun & _ & Hten & _).
  exists report. split; assumption.
Defined.

Lemma C9_classes_witness :
  exists report,
    analyze_password (H := basic_unicode) [201%N; 1633%N] = Ok report
    /\ has_uppercase (checks report) = false
    /\ has_lowercase (checks report) = false
    /\ has_digits (checks report) = true.
Proof.
  destruct (C9_classes_ascii_letters_unicode_digits (H := basic_unicode)
              [201%N; 1633%N])
    as (report & Hrun & _ & _ & _ & Hletters & Hdigit & _).
  exists report. split; [exact Hrun |].
  destruct Hletters as [Hup Hlow].
  - intros c [<- | [<- | []]]; discriminate.
  - repeat split; try assumption. apply Hdigit. right. left. reflexivity.
Defined.

Lemma C10_multiple_of_5_witness :
  exists report,
    analyze_password (H := basic_unicode) (u "Summer2024!") = Ok report
    /\ strength_score report mod 5 = 0.
Proof.
  destruct (C10_score_multiple_of_5 (H := basic_unicode) (u "Summer2024!"))
    as (report & Hrun & _ & Hmod).
  exists report. split; assumption.
Defined.

(** * Further properties of the analysis *)

(** ** Lower case on ASCII passwords *)

Lemma str_eqb_eq (a b : str) : str_eqb a b = true <-> a = b.
Proof.
  unfold str_eqb. destruct (list_eq_dec N.eq_dec a b); split;
    congruence.
Qed.


Lemma forallb_ascii_app (a b : str) :
  forallb is_ascii (a ++ b) = true <->
  forallb is_ascii a = true /\ forallb is_ascii b = true.
Proof. rewrite forallb_app. apply andb_true_iff. Qed.

Lemma is_special_ascii_lower (c : codepoint) :
  is_special (ascii_lower c) = is_special c.
Proof.
  unfold ascii_lower. destruct (in_range 65 90 c) eqn:E; [| reflexivity].
  apply in_range_spec in E.
  assert (Hc : In c (map N.of_nat (seq 65 26))).
  { apply in_map_iff. exists (N.to_nat c). split; [lia |].
    apply in_seq. lia. }
  cbn in Hc.
  repeat (destruct Hc as [<- | Hc]; [reflexivity |]). contradiction.
Qed.

Lemma search_special_lower (s : str) :
  re_search_class is_special (map ascii_lower s)
  = re_search_class is_special s.
Proof.
  unfold re_search_class. induction s as [| c s IH]; [reflexivity |].
  cbn [map existsb]. now rewrite IH, is_special_ascii_lower.
Qed.

Lemma in_range_digit_lower (c : codepoint) :
  in_range 48 57 (ascii_lower c) = in_range 48 57 c.
Proof.
  unfold ascii_lower. destruct (in_range 65 90 c) eqn:E; [| reflexivity].
  apply in_range_spec in E. unfold in_range.
  destruct (N.leb_spec (c + 32) 57), (N.leb_spec c 57);
    rewrite ?andb_false_r; try reflexivity; lia.
Qed.

Lemma search_digit_lower (s : str) :
  re_search_class (in_range 48 57) (map ascii_lower s)
  = re_search_class (in_range 48 57) s.
Proof.
  unfold re_search_class. induction s as [| c s IH]; [reflexivity |].
  cbn [map existsb]. now rewrite IH, in_range_digit_lower.
Qed.

(** X1: two ASCII passwords that differ only in the case of their letters
    get the same denylist flag, the same sequential flag, the same length,
    the same digit flag and the same special-character flag. *)
Theorem X1_ascii_case_insensitive `{Unicode} (p q : str)
  (Hp : forallb is_ascii p = true) (Hq : forallb is_ascii q = true)
  (Hpq : map ascii_lower p = map ascii_lower q) :
  exists rp rq,
    analyze_password p = Ok rp
    /\ analyze_password q = Ok rq
    /\ is_common (checks rp) = is_common (checks rq)
    /\ has_sequential (checks rp) = has_sequential (checks rq)
    /\ length (checks rp) = length (checks rq)
    /\ has_digits (checks rp) = has_digits (checks rq)
    /\ has_special (checks rp) = has_special (checks rq).
Proof.
  destruct (analyze_password_returns p) as (bp & ep & _ & _ & Hrp).
  destruct (analyze_password_returns q) as (bq & eq & _ & _ & Hrq).
  do 2 eexists. split; [exact Hrp |]. split; [exact Hrq |].
  cbn [checks checks_of is_common has_sequential length has_digits
       has_special].
  rewrite !check_sequential_ascii, !search_digits_ascii by assumption.
  rewrite (lower_ascii p Hp), (lower_ascii q Hq), Hpq.
  rewrite <- (search_special_lower p), <- (search_special_lower q).
  rewrite <- (search_digit_lower p), <- (search_digit_lower q), Hpq.
  repeat split. unfold len.
  rewrite <- (length_map ascii_lower p), <- (length_map ascii_lower q).
  now rewrite Hpq.
Qed.

Lemma X1_ascii_case_witness :
  exists rp rq,
    analyze_password (H := basic_unicode) (u "PassWord") = Ok rp
    /\ analyze_password (H := basic_unicode) (u "password") = Ok rq
    /\ is_common (checks rp) = is_common (checks rq).
Proof.
  destruct (X1_ascii_case_insensitive (H := basic_unicode)
              (u "PassWord") (u "password") eq_refl eq_refl eq_refl)
    as (rp & rq & Hp & Hq & Hc & _).
  exists rp, rq. repeat split; assumption.
Defined.

(** ** What the denylist costs *)

Lemma label_weak_iff (score : Z) :
  _get_strength_label score = "Weak"%string <-> score < 40.
Proof.
  unfold _get_strength_label.
  destruct (Z.ltb_spec score 40); [| destruct (Z.ltb_spec score 70);
                                     [| destruct (Z.ltb_spec score 90)]];
    split; intros; try lia; try discriminate; reflexivity.
Qed.

Lemma label_very_strong_iff (score : Z) :
  _get_strength_label score = "Very Strong"%string <-> 90 <= score.
Proof.
  unfold _get_strength_label.
  destruct (Z.ltb_spec score 40); [| destruct (Z.ltb_spec score 70);
                                     [| destruct (Z.ltb_spec score 90)]];
    split; intros; try lia; try discriminate; reflexivity.
Qed.

Lemma label_strong_iff (score : Z) :
  _get_strength_label score = "Strong"%string <-> 70 <= score < 90.
Proof.
  unfold _get_strength_label.
  destruct (Z.ltb_spec score 40); [| destruct (Z.ltb_spec score 70);
                                     [| destruct (Z.ltb_spec score 90)]];
    split; intros; try lia; try discriminate; reflexivity.
Qed.

Lemma delta_bounds (cond : bool) (d : Z) :
  0 <= d -> 0 <= delta cond d <= d.
Proof. destruct cond; cbn; lia. Qed.

Lemma delta_true (d : Z) : delta true d = d.
Proof. reflexivity. Qed.

Lemma delta_false (d : Z) : delta false d = 0.
Proof. reflexivity. Qed.

(** X2: a password flagged as common scores at most 50, whatever else it
    has, so it is never labelled Strong or Very Strong. *)
Theorem X2_common_never_strong `{Unicode} (password : str) :
  exists report,
    analyze_password password = Ok report
    /\ (is_common (checks report) = true ->
        strength_score report <= 50
        /\ strength_label report <> "Strong"%string
        /\ strength_label report <> "Very Strong"%string).
Proof.
  destruct (analyze_password_returns password) as (rep & ent & _ & _ & Hrun).
  eexists. split; [exact Hrun |].
  cbn [checks strength_score strength_label]. intros Hcommon.
  assert (Hs : _calculate_strength (checks_of password rep ent) <= 50).
  { rewrite calculate_strength_policy. unfold policy_score, policy_sum.
    rewrite Hcommon, delta_true.
    pose proof (delta_bounds (8 <=? length (checks_of password rep ent)) 20).
    pose proof (delta_bounds (12 <=? length (checks_of password rep ent)) 10).
    pose proof (delta_bounds (16 <=? length (checks_of password rep ent)) 10).
    pose proof (delta_bounds (has_uppercase (checks_of password rep ent)) 15).
    pose proof (delta_bounds (has_lowercase (checks_of password rep ent)) 15).
    pose proof (delta_bounds (has_digits (checks_of password rep ent)) 15).
    pose proof (delta_bounds (has_special (checks_of password rep ent)) 15).
    pose proof (delta_bounds (has_repeated (checks_of password rep ent)) 10).
    pose proof (delta_bounds (has_sequential (checks_of password rep ent)) 10).
    lia. }
  split; [exact Hs |]. rewrite label_strong_iff, label_very_strong_iff. lia.
Qed.




(** ** What each label takes *)

Ltac split_length r :=
  destruct (Z.leb_spec 8 (length r));
  destruct (Z.leb_spec 12 (length r));
  destruct (Z.leb_spec 16 (length r));
  try lia.

Lemma very_strong_checks (r : Checks) :
  90 <= _calculate_strength r <->
  (has_uppercase r && has_lowercase r && has_digits r && has_special r
   && negb (is_common r)
   && ((16 <=? length r) && negb (has_repeated r && has_sequential r)
       || (12 <=? length r) && negb (has_repeated r)
          && negb (has_sequential r)))%bool = true.
Proof.
  rewrite calculate_strength_policy. unfold policy_score, policy_sum.
  split_length r;
    destruct (has_uppercase r), (has_lowercase r), (has_digits r),
      (has_special r), (is_common r), (has_repeated r), (has_sequential r);
    cbn; split; intros; try lia; try discriminate; reflexivity.
Qed.

(** X4: a password is labelled Very Strong exactly when it has all four
    character classes, is not on the denylist, and either has at least 16
    characters and at most one of the two pattern flags, or has at least 12
    characters and neither flag. *)
Theorem X4_very_strong_exactly `{Unicode} (password : str) :
  exists report,
    analyze_password password = Ok report
    /\ (strength_label report = "Very Strong"%string <->
        has_uppercase (checks report) = true
        /\ has_lowercase (checks report) = true
        /\ has_digits (checks report) = true
        /\ has_special (checks report) = true
        /\ is_common (checks report) = false
        /\ (16 <= len password
            /\ (has_repeated (checks report) = false
                \/ has_sequential (checks report) = false)
            \/ 12 <= len password
               /\ has_repeated (checks report) = false
               /\ has_sequential (checks report) = false)).
Proof.
  destruct (analyze_password_returns password) as (rep & ent & _ & _ & Hrun).
  eexists. split; [exact Hrun |]. cbn [checks strength_label].
  rewrite label_very_strong_iff, very_strong_checks.
  change (length (checks_of password rep ent)) with (len password).
  destruct (has_uppercase _), (has_lowercase _), (has_digits _),
    (has_special _), (is_common _), (has_repeated _), (has_sequential _);
    cbn; rewrite ?andb_true_r, ?andb_false_r, ?orb_false_r, ?orb_true_iff,
           ?Z.leb_le;
    try solve [split; [discriminate | intros (? & ? & ? & ? & ? & ?);
                                      try discriminate; lia]];
    try solve [split; [intros; repeat split; lia
                      | intros (_ & _ & _ & _ & _ & ?); lia]].
Qed.

(** X5: a password of fewer than eight characters scores at most 60 and is
    labelled Weak or Moderate. *)
Theorem X5_short_never_strong `{Unicode} (password : str)
  (Hshort : len password < 8) :
  exists report,
    analyze_password password = Ok report
    /\ strength_score report <= 60
    /\ (strength_label report = "Weak"%string
        \/ strength_label report = "Moderate"%string).
Proof.
  destruct (analyze_password_returns password) as (rep & ent & _ & _ & Hrun).
  eexists. split; [exact Hrun |]. cbn [strength_score strength_label].
  assert (Hs : _calculate_strength (checks_of password rep ent) <= 60).
  { rewrite calculate_strength_policy. unfold policy_score, policy_sum.
    change (length (checks_of password rep ent)) with (len password).
    destruct (Z.leb_spec 8 (len password)); [lia |].
    destruct (Z.leb_spec 12 (len password)); [lia |].
    destruct (Z.leb_spec 16 (len password)); [lia |].
    rewrite !delta_false.
    pose proof (delta_bounds (has_uppercase (checks_of password rep ent)) 15).
    pose proof (delta_bounds (has_lowercase (checks_of password rep ent)) 15).
    pose proof (delta_bounds (has_digits (checks_of password rep ent)) 15).
    pose proof (delta_bounds (has_special (checks_of password rep ent)) 15).
    pose proof (delta_bounds (is_common (checks_of password rep ent)) 50).
    pose proof (delta_bounds (has_repeated (checks_of password rep ent)) 10).
    pose proof (delta_bounds (has_sequential (checks_of password rep ent)) 10).
    lia. }
  split; [exact Hs |]. unfold _get_strength_label.
  destruct (Z.ltb_spec (_calculate_strength (checks_of password rep ent)) 40);
    [now left |].
  destruct (Z.ltb_spec (_calculate_strength (checks_of password rep ent)) 70);
    [now right | lia].
Qed.

Lemma X5_short_witness :
  exists report,
    analyze_password (H := basic_unicode) (u "aB3$xY!") = Ok report
    /\ strength_score report <= 60.
Proof.
  assert (Hshort : len (u "aB3$xY!") < 8) by reflexivity.
  destruct (X5_short_never_strong (H := basic_unicode) (u "aB3$xY!") Hshort)
    as (report & Hrun & Hs & _).
  exists report. split; assumption.
Defined.

(** ** The fallback advice and the score *)

Lemma fallback_checks (r : Checks) :
  _generate_recommendations r = [fallback_advice] <->
  ((12 <=? length r) && has_uppercase r && has_lowercase r && has_digits r
   && has_special r && negb (is_common r) && negb (has_repeated r)
   && negb (has_sequential r))%bool = true.
Proof.
  unfold _generate_recommendations. rewrite (Z.ltb_antisym 12 (length r)).
  destruct (12 <=? length r), (has_uppercase r), (has_lowercase r),
    (has_digits r), (has_special r), (is_common r), (has_repeated r),
    (has_sequential r); cbn; split; intros; try discriminate; reflexivity.
Qed.

(** X6: the recommendations are the single fallback entry exactly when the
    password has at least 12 characters, all four character classes and
    none of the three issues; such a password scores at least 90 and is
    labelled Very Strong, and every password that scores 100 is one. *)
Theorem X6_fallback_means_very_strong `{Unicode} (password : str) :
  exists report,
    analyze_password password = Ok report
    /\ (recommendations report = [fallback_advice] <->
        12 <= len password
        /\ has_uppercase (checks report) = true
        /\ has_lowercase (checks report) = true
        /\ has_digits (checks report) = true
        /\ has_special (checks report) = true
        /\ is_common (checks report) = false
        /\ has_repeated (checks report) = false
        /\ has_sequential (checks report) = false)
    /\ (recommendations report = [fallback_advice] ->
        90 <= strength_score report
        /\ strength_label report = "Very Strong"%string)
    /\ (strength_score report = 100 ->
        recommendations report = [fallback_advice]).
Proof.
  destruct (analyze_password_returns password) as (rep & ent & _ & _ & Hrun).
  eexists. split; [exact Hrun |].
  cbn [checks recommendations strength_score strength_label].
  set (r := checks_of password rep ent).
  assert (Hclean : _generate_recommendations r = [fallback_advice] ->
                   90 <= _calculate_strength r).
  { rewrite fallback_checks, very_strong_checks.
    destruct (Z.leb_spec 12 (length r)), (Z.leb_spec 16 (length r)),
      (has_uppercase r), (has_lowercase r), (has_digits r), (has_special r),
      (is_common r), (has_repeated r), (has_sequential r);
      cbn; intros; try discriminate; try reflexivity; lia. }
  split; [| split].
  - rewrite fallback_checks. change (length r) with (len password).
    rewrite !andb_true_iff, !negb_true_iff, Z.leb_le. tauto.
  - intros Hf. split; [now apply Hclean |].
    apply label_very_strong_iff. now apply Hclean.
  - intros H100. apply fallback_checks. revert H100.
    rewrite calculate_strength_policy. unfold policy_score, policy_sum.
    split_length r;
      destruct (has_uppercase r), (has_lowercase r), (has_digits r),
        (has_special r), (is_common r), (has_repeated r), (has_sequential r);
      cbn; intros; try lia; try discriminate; reflexivity.
Qed.

(** ** The score is monotone *)

Lemma delta_mono (c c' : bool) (d : Z) :
  0 <= d -> (c = true -> c' = true) -> delta c d <= delta c' d.
Proof.
  intros Hd Himp.
  destruct c; [rewrite (Himp eq_refl) | destruct c']; cbn; lia.
Qed.

Lemma leb_mono (k a b : Z) : a <= b -> (k <=? a) = true -> (k <=? b) = true.
Proof. rewrite !Z.leb_le. lia. Qed.

(** X7: a set of checks that is at least as long, has every character
    class the other has and no issue the other lacks never scores less, and
    its label is never in a lower band. *)
Theorem X7_score_monotone (r r' : Checks)
  (Hlen : length r <= length r')
  (Hupper : has_uppercase r = true -> has_uppercase r' = true)
  (Hlower : has_lowercase r = true -> has_lowercase r' = true)
  (Hdigit : has_digits r = true -> has_digits r' = true)
  (Hspecial : has_special r = true -> has_special r' = true)
  (Hcommon : is_common r' = true -> is_common r = true)
  (Hrepeated : has_repeated r' = true -> has_repeated r = true)
  (Hsequential : has_sequential r' = true -> has_sequential r = true) :
  _calculate_strength r <= _calculate_strength r'
  /\ (_get_strength_label (_calculate_strength r') = "Weak"%string ->
      _get_strength_label (_calculate_strength r) = "Weak"%string)
  /\ (_get_strength_label (_calculate_strength r) = "Very Strong"%string ->
      _get_strength_label (_calculate_strength r') = "Very Strong"%string)
  /\ (_get_strength_label (_calculate_strength r) = "Strong"%string ->
      _get_strength_label (_calculate_strength r') = "Strong"%string
      \/ _get_strength_label (_calculate_strength r')
         = "Very Strong"%string).
Proof.
  assert (Hs : _calculate_strength r <= _calculate_strength r').
  { rewrite !calculate_strength_policy. unfold policy_score, policy_sum.
    pose proof (delta_mono _ _ 20 ltac:(lia) (leb_mono 8 _ _ Hlen)).
    pose proof (delta_mono _ _ 10 ltac:(lia) (leb_mono 12 _ _ Hlen)).
    pose proof (delta_mono _ _ 10 ltac:(lia) (leb_mono 16 _ _ Hlen)).
    pose proof (delta_mono _ _ 15 ltac:(lia) Hupper).
    pose proof (delta_mono _ _ 15 ltac:(lia) Hlower).
    pose proof (delta_mono _ _ 15 ltac:(lia) Hdigit).
    pose proof (delta_mono _ _ 15 ltac:(lia) Hspecial).
    pose proof (delta_mono _ _ 50 ltac:(lia) Hcommon).
    pose proof (delta_mono _ _ 10 ltac:(lia) Hrepeated).
    pose proof (delta_mono _ _ 10 ltac:(lia) Hsequential).
    lia. }
  split; [exact Hs |].
  rewrite !label_weak_iff, !label_very_strong_iff, !label_strong_iff. lia.
Qed.

Lemma X7_score_monotone_witness :
  _calculate_strength
    {| length := 9; has_uppercase := true; has_lowercase := true;
       has_digits := false; has_special := false; is_common := false;
       has_repeated := true; has_sequential := false; entropy := Int 0 |}
  <= _calculate_strength
       {| length := 13; has_uppercase := true; has_lowercase := true;
          has_digits := true; has_special := false; is_common := false;
          has_repeated := false; has_sequential := false;
          entropy := Int 0 |}.
Proof.
  refine (proj1 (X7_score_monotone _ _ _ _ _ _ _ _ _ _)); cbn;
    solve [ discriminate | intros; reflexivity | congruence ].
Defined.

(** ** Padding does not hide a pattern *)

Lemma nth_error_middle (pre p post : str) (i : nat) (c : codepoint) :
  nth_error p i = Some c ->
  nth_error (pre ++ p ++ post) (List.length pre + i) = Some c.
Proof.
  intros Hn. rewrite nth_error_app2 by lia.
  replace (List.length pre + i - List.length pre)%nat with i by lia.
  rewrite nth_error_app1; [exact Hn |].
  apply nth_error_Some. congruence.
Qed.

Lemma run_at_middle (pre p post : str) (i : nat) :
  run_at p i -> run_at (pre ++ p ++ post) (List.length pre + i).
Proof.
  intros (c & H0 & H1 & H2). exists c.
  rewrite <- !Nat.add_assoc. auto using nth_error_middle.
Qed.

Lemma check_repeated_chars_true (s : str) :
  _check_repeated_chars s = Ok true <-> exists i, run_at s i.
Proof.
  rewrite check_repeated_chars_scan. split.
  - intros Hs. injection Hs as Hs. apply existsb_exists in Hs.
    destruct Hs as (i & _ & Hi). exists i. now apply triple_at_run.
  - intros (i & Hi). f_equal. apply existsb_exists. exists i.
    split; [| now apply triple_at_run].
    apply run_at_bound in Hi. apply in_seq. lia.
Qed.

(** X8: if the repeated-run check flags a password, it flags every
    password that contains it, whatever stands before and after. *)
Theorem X8_repeated_survives_padding (pre password post : str)
  (Hflag : _check_repeated_chars password = Ok true) :
  _check_repeated_chars (pre ++ password ++ post) = Ok true.
Proof.
  apply check_repeated_chars_true in Hflag. destruct Hflag as (i & Hi).
  apply check_repeated_chars_true. exists (List.length pre + i)%nat.
  now apply run_at_middle.
Qed.

Lemma X8_repeated_padding_witness :
  _check_repeated_chars (u "xy" ++ u "baaad" ++ u "!") = Ok true.
Proof.
  apply (X8_repeated_survives_padding (u "xy") (u "baaad") (u "!")).
  reflexivity.
Defined.

Lemma substring_middle (m pre p post : str) :
  substring m p -> substring m (pre ++ p ++ post).
Proof.
  intros (a & b & ->). exists (pre ++ a), (b ++ post).
  now rewrite <- !app_assoc.
Qed.

(** X9: if the sequential-pattern check flags an ASCII password, it flags
    every ASCII password that contains it. *)
Theorem X9_sequential_survives_padding `{Unicode} (pre password post : str)
  (Hpre : forallb is_ascii pre = true)
  (Hpw : forallb is_ascii password = true)
  (Hpost : forallb is_ascii post = true)
  (Hflag : _check_sequential password = true) :
  _check_sequential (pre ++ password ++ post) = true.
Proof.
  assert (Hall : forallb is_ascii (pre ++ password ++ post) = true).
  { apply forallb_ascii_app. split; [exact Hpre |].
    apply forallb_ascii_app. now split. }
  apply check_sequential_spec in Hflag. destruct Hflag as (m & Hin & Hm).
  apply check_sequential_spec. exists m. split; [exact Hin |].
  rewrite (lower_ascii _ Hpw) in Hm. rewrite (lower_ascii _ Hall), !map_app.
  destruct Hm as [Hm | Hm]; [left | right]; now apply substring_middle.
Qed.

Lemma X9_sequential_padding_witness :
  _check_sequential (H := basic_unicode) (u "My" ++ u "Qwerty" ++ u "77")
  = true.
Proof.
  apply (X9_sequential_survives_padding (H := basic_unicode)
           (u "My") (u "Qwerty") (u "77")); reflexivity.
Defined.

(** ** The estimate in exact arithmetic *)

Lemma entropy_loop_exact_closed (counts : list Z) (n e : R) :
  (0 < n)%R -> Forall (fun v => 1 <= v) counts ->
  entropy_loop_exact counts n e
  = (e - 3.321928 * IZR (zsum (map (fun c => (c * c)%Z) counts)) / (n * n))%R.
Proof.
  intros Hn Hpos. revert e.
  induction Hpos as [| c rest Hc Hrest IH]; intros e.
  - cbn. lra.
  - cbn [entropy_loop_exact map].
    change (zsum ((c * c)%Z :: map (fun c => (c * c)%Z) rest))
      with ((c * c)%Z + zsum (map (fun c => (c * c)%Z) rest)).
    rewrite IH, plus_IZR, mult_IZR.
    assert (Hc1 : (1 <= IZR c)%R) by now apply IZR_le.
    assert (Hp : (0 < IZR c / n)%R) by (apply Rdiv_lt_0_compat; lra).
    destruct (Req_EM_T (IZR c / n) 0) as [E | _]; [lra |].
    field. lra.
Qed.

(** X10: read in exact arithmetic, without binary64 rounding and without
    the final [round], the expression [_calculate_entropy] evaluates on a
    non-empty password is [-3.321928] times the sum of the squared
    character counts divided by the length, which is at most [-3.321928]. *)
Theorem X10_entropy_exact_closed_form (password : str)
  (Hne : password <> []) :
  entropy_exact password
  = (- (3.321928
        * IZR (zsum (map (fun c => (c * c)%Z) (values (Counter password))))
        / IZR (len password)))%R
  /\ (entropy_exact password <= - 3.321928)%R.
Proof.
  split; [| now apply entropy_exact_negative].
  unfold entropy_exact.
  assert (Hlen : (0 < IZR (len password))%R).
  { apply IZR_lt. destruct password; [contradiction |].
    unfold len. cbn [List.length]. lia. }
  rewrite entropy_loop_exact_closed.
  - field. lra.
  - exact Hlen.
  - apply (counter_fold_pos password []). constructor.
Qed.

Lemma X10_entropy_exact_witness :
  (entropy_exact (u "correct horse") <= - 3.321928)%R.
Proof.
  apply (X10_entropy_exact_closed_form (u "correct horse")).
  discriminate.
Defined.

(** * Properties of [check_breach] *)

Lemma utf8_encode_char_none (c : codepoint) :
  (c < 1114112)%N ->
  (utf8_encode_char c = None <-> is_surrogate c = true).
Proof.
  intros Hc. unfold utf8_encode_char.
  destruct (is_surrogate c) eqn:Es.
  - apply in_range_spec in Es.
    destruct (Z.ltb_spec (Z.of_N c) 128); [lia |].
    destruct (Z.ltb_spec (Z.of_N c) 2048); [lia |].
    destruct (Z.ltb_spec (Z.of_N c) 65536); [tauto | lia].
  - destruct (Z.ltb_spec (Z.of_N c) 128); [split; discriminate |].
    destruct (Z.ltb_spec (Z.of_N c) 2048); [split; discriminate |].
    destruct (Z.ltb_spec (Z.of_N c) 65536); [split; discriminate |].
    destruct (Z.ltb_spec (Z.of_N c) 1114112); [split; discriminate | lia].
Qed.

Lemma utf8_encode_none (s : str) :
  Forall (fun c => (c < 1114112)%N) s ->
  (utf8_encode s = None <-> exists c, In c s /\ is_surrogate c = true).
Proof.
  induction 1 as [| c rest Hc Hrest IH]; cbn [utf8_encode].
  - split; [discriminate | intros (c & [] & _)].
  - pose proof (utf8_encode_char_none c Hc) as Hchar.
    destruct (utf8_encode_char c) as [bytes |].
    + destruct (utf8_encode rest) as [more |].
      * split; [discriminate |]. intros (x & [<- | Hin] & Hx).
        -- apply Hchar in Hx. discriminate.
        -- destruct IH as [_ IH]. discriminate IH. eauto.
      * split; [| reflexivity]. intros _.
        destruct IH as [IH _]. destruct (IH eq_refl) as (x & Hin & Hx).
        exists x. split; [now right | exact Hx].
    + split; [| reflexivity]. intros _. exists c.
      split; [now left | now apply Hchar].
Qed.

Lemma hexdigest_length (digest : list Z) :
  List.length (hexdigest digest) = (2 * List.length digest)%nat.
Proof.
  unfold hexdigest. induction digest as [| b rest IH]; [reflexivity |].
  cbn [flat_map]. rewrite length_app, IH. cbn. lia.
Qed.

Ltac nibble_cases d H :=
  assert (H : d = 0 \/ d = 1 \/ d = 2 \/ d = 3 \/ d = 4 \/ d = 5 \/ d = 6
              \/ d = 7 \/ d = 8 \/ d = 9 \/ d = 10 \/ d = 11 \/ d = 12
              \/ d = 13 \/ d = 14 \/ d = 15) by lia.

Lemma upper_hex_digit_alphabet (d : Z) :
  0 <= d < 16 -> In (ascii_upper (hex_digit d)) (u "0123456789ABCDEF").
Proof.
  intros Hd. nibble_cases d Hcases.
  repeat (destruct Hcases as [-> | Hcases]; [vm_compute; tauto |]).
  subst. vm_compute. tauto.
Qed.

Lemma hexdigest_upper_alphabet (digest : list Z) :
  Forall (fun b => 0 <= b < 256) digest ->
  Forall (fun c => In c (u "0123456789ABCDEF"))
         (map ascii_upper (hexdigest digest)).
Proof.
  induction 1 as [| b rest Hb Hrest IH]; [constructor |].
  unfold hexdigest. cbn [flat_map hex_byte app map].
  constructor; [| constructor; [| exact IH]];
    apply upper_hex_digit_alphabet.
  - split; [apply Z.div_pos; lia | apply Z.div_lt_upper_bound; lia].
  - apply Z.mod_pos_bound. lia.
Qed.

Lemma Forall_firstn_keep {A : Type} (P : A -> Prop) (n : nat) (l : list A) :
  Forall P l -> Forall P (firstn n l).
Proof.
  intros Hl. revert n. induction Hl as [| x l Hx Hl IH]; intros [| n]; cbn;
    constructor; auto.
Qed.

(** X11: on a password of valid code points [check_breach] fails, with
    [UnicodeEncodeError], exactly when the password contains a surrogate
    (U+D800..U+DFFF); otherwise it returns exactly five characters, each
    one of 0-9 or A-F. *)
Theorem X11_check_breach_five_upper_hex `{Hashlib} (password : str)
  (Hvalid : Forall (fun c => (c < 1114112)%N) password) :
  (check_breach password = None <->
   exists c, In c password /\ is_surrogate c = true)
  /\ (forall prefix, check_breach password = Some prefix ->
      List.length prefix = 5%nat
      /\ Forall (fun c => In c (u "0123456789ABCDEF")) prefix).
Proof.
  split.
  - rewrite <- (utf8_encode_none password Hvalid). unfold check_breach.
    destruct (utf8_encode password); split; congruence.
  - intros prefix. unfold check_breach.
    destruct (utf8_encode password) as [data |]; [| discriminate].
    cbv zeta. intros Hp.
    assert (Hpre : prefix
                   = firstn 5 (map ascii_upper (hexdigest (sha1 data))))
      by congruence.
    rewrite Hpre. split.
    + rewrite length_firstn, length_map, hexdigest_length, sha1_length.
      reflexivity.
    + apply Forall_firstn_keep, hexdigest_upper_alphabet, sha1_bytes.
Qed.

Lemma X11_check_breach_witness :
  exists prefix,
    check_breach (H := fips_hashlib) [233%N; 8364%N; 128512%N] = Some prefix
    /\ List.length prefix = 5%nat.
Proof.
  assert (Hvalid : Forall (fun c => (c < 1114112)%N)
                          [233%N; 8364%N; 128512%N])
    by (repeat constructor).
  destruct (X11_check_breach_five_upper_hex (H := fips_hashlib) _ Hvalid)
    as [Hnone Hsome].
  destruct (check_breach (H := fips_hashlib) [233%N; 8364%N; 128512%N])
    as [prefix |].
  - exists prefix. split; [reflexivity |]. now apply Hsome.
  - destruct Hnone as [Hnone _].
    destruct (Hnone eq_refl) as (c & [<- | [<- | [<- | []]]] & Hc);
      discriminate Hc.
Defined.

Lemma hex_value_upper_digit (d : Z) :
  0 <= d < 16 -> hex_value (ascii_upper (hex_digit d)) = d.
Proof.
  intros Hd. nibble_cases d Hcases.
  repeat (destruct Hcases as [-> | Hcases]; [reflexivity |]).
  subst. reflexivity.
Qed.

Lemma div_mod_digit (n k q r p d : Z) :
  0 <= r < k -> n = k * q + r -> 0 <= d < 16 -> q = 16 * p + d ->
  (n / k) mod 16 = d.
Proof.
  intros Hr Hn Hd Hq.
  replace (n / k) with q by (apply Z.div_unique with (r := r); auto).
  symmetry. apply Z.mod_unique with (q := p); auto.
Qed.

Lemma hex5_digits (b0 b1 b2 : Z) (rest : list Z) :
  0 <= b0 < 256 -> 0 <= b1 < 256 -> 0 <= b2 < 256 ->
  hex5 (top20 (b0 :: b1 :: b2 :: rest))
  = map (fun d => ascii_upper (hex_digit d))
        [b0 / 16; b0 mod 16; b1 / 16; b1 mod 16; b2 / 16].
Proof.
  intros H0 H1 H2. unfold hex5, top20. cbn [nth map].
  change (16 ^ 4) with 65536. change (16 ^ 3) with 4096.
  change (16 ^ 2) with 256. change (16 ^ 1) with 16. change (16 ^ 0) with 1.
  set (n := (b0 * 65536 + b1 * 256 + b2) / 16).
  assert (Hn : n = 65536 * (b0 / 16) + 4096 * (b0 mod 16)
                   + 256 * (b1 / 16) + 16 * (b1 mod 16) + b2 / 16).
  { subst n. symmetry. apply Z.div_unique with (r := b2 mod 16).
    - left. apply Z.mod_pos_bound. lia.
    - pose proof (Z.div_mod b0 16 ltac:(lia)).
      pose proof (Z.div_mod b1 16 ltac:(lia)).
      pose proof (Z.div_mod b2 16 ltac:(lia)). lia. }
  pose proof (Z.mod_pos_bound b0 16 ltac:(lia)) as Hr0.
  pose proof (Z.mod_pos_bound b1 16 ltac:(lia)) as Hr1.
  assert (Hq0 : 0 <= b0 / 16 < 16)
    by (split; [apply Z.div_pos | apply Z.div_lt_upper_bound]; lia).
  assert (Hq1 : 0 <= b1 / 16 < 16)
    by (split; [apply Z.div_pos | apply Z.div_lt_upper_bound]; lia).
  assert (Hq2 : 0 <= b2 / 16 < 16)
    by (split; [apply Z.div_pos | apply Z.div_lt_upper_bound]; lia).
  revert Hn Hr0 Hr1 Hq0 Hq1 Hq2.
  generalize (b0 / 16) (b0 mod 16) (b1 / 16) (b1 mod 16) (b2 / 16).
  generalize n. clear.
  intros n q0 r0 q1 r1 q2 Hn Hr0 Hr1 Hq0 Hq1 Hq2.
  rewrite (div_mod_digit n 65536 q0 (4096 * r0 + 256 * q1 + 16 * r1 + q2)
             0 q0) by lia.
  rewrite (div_mod_digit n 4096 (16 * q0 + r0) (256 * q1 + 16 * r1 + q2)
             q0 r0) by lia.
  rewrite (div_mod_digit n 256 (256 * q0 + 16 * r0 + q1) (16 * r1 + q2)
             (16 * q0 + r0) q1) by lia.
  rewrite (div_mod_digit n 16 (4096 * q0 + 256 * r0 + 16 * q1 + r1) q2
             (256 * q0 + 16 * r0 + q1) r1) by lia.
  rewrite (div_mod_digit n 1 n 0 (4096 * q0 + 256 * r0 + 16 * q1 + r1) q2)
    by lia.
  reflexivity.
Qed.

Lemma hex5_value_hex5 (n : Z) :
  0 <= n < 1048576 -> hex5_value (hex5 n) = n.
Proof.
  intros Hn. unfold hex5_value, hex5. cbn [map fold_left].
  change (16 ^ 4) with 65536. change (16 ^ 3) with 4096.
  change (16 ^ 2) with 256. change (16 ^ 1) with 16. change (16 ^ 0) with 1.
  rewrite !hex_value_upper_digit by (apply Z.mod_pos_bound; lia).
  rewrite Z.div_1_r.
  Z.div_mod_to_equations. lia.
Qed.

Lemma top20_bound (digest : list Z) :
  Forall (fun b => 0 <= b < 256) digest -> 0 <= top20 digest < 1048576.
Proof.
  intros Hd. unfold top20.
  assert (Hnth : forall i, 0 <= nth i digest 0 < 256).
  { intros i. destruct (nth_in_or_default i digest 0) as [Hin | ->]; [| lia].
    rewrite Forall_forall in Hd. now apply Hd. }
  pose proof (Hnth 0%nat). pose proof (Hnth 1%nat). pose proof (Hnth 2%nat).
  split; [apply Z.div_pos; lia | apply Z.div_lt_upper_bound; lia].
Qed.

Lemma check_breach_prefix `{Hashlib} (password : str) (data : list Z) :
  utf8_encode password = Some data ->
  check_breach password = Some (hex5 (top20 (sha1 data))).
Proof.
  intros Henc. unfold check_breach. rewrite Henc. cbv zeta. f_equal.
  pose proof (sha1_length data) as Hlen.
  pose proof (sha1_bytes data) as Hbytes.
  destruct (sha1 data) as [| b0 [| b1 [| b2 rest]]]; try discriminate Hlen.
  inversion Hbytes as [| ? ? H0 Hb1]; subst.
  inversion Hb1 as [| ? ? H1 Hb2]; subst.
  inversion Hb2 as [| ? ? H2 _]; subst.
  rewrite hex5_digits by assumption. reflexivity.
Qed.

(** X12: the prefix [check_breach] returns is the first twenty bits of the
    SHA-1 digest of the UTF-8 bytes, written as five upper-case hexadecimal
    digits, and nothing more: the twenty bits can be read back from it, and
    two passwords get the same prefix exactly when their digests agree on
    those twenty bits. *)
Theorem X12_check_breach_first_20_bits `{Hashlib} (p q : str)
  (dp dq : list Z)
  (Hp : utf8_encode p = Some dp) (Hq : utf8_encode q = Some dq) :
  check_breach p = Some (hex5 (top20 (sha1 dp)))
  /\ 0 <= top20 (sha1 dp) < 1048576
  /\ hex5_value (hex5 (top20 (sha1 dp))) = top20 (sha1 dp)
  /\ (check_breach p = check_breach q <->
      top20 (sha1 dp) = top20 (sha1 dq)).
Proof.
  pose proof (top20_bound _ (sha1_bytes dp)) as Hbp.
  pose proof (top20_bound _ (sha1_bytes dq)) as Hbq.
  rewrite (check_breach_prefix p dp Hp), (check_breach_prefix q dq Hq).
  split; [reflexivity |]. split; [exact Hbp |].
  split; [now apply hex5_value_hex5 |]. split.
  - intros Heq.
    assert (Hv : hex5_value (hex5 (top20 (sha1 dp)))
                 = hex5_value (hex5 (top20 (sha1 dq)))) by congruence.
    now rewrite !hex5_value_hex5 in Hv.
  - intros ->. reflexivity.
Qed.

Lemma X12_check_breach_witness :
  check_breach (H := fips_hashlib) (u "password")
  = Some (hex5 (top20 (sha1 (Hashlib := fips_hashlib)
                         (map Z.of_N (u "password"))))).
Proof.
  refine (proj1 (X12_check_breach_first_20_bits (H := fips_hashlib)
                   (u "password") (u "letmein")
                   (map Z.of_N (u "password")) (map Z.of_N (u "letmein"))
                   _ _)); reflexivity.
Defined.

Example check_breach_password :
  check_breach (H := fips_hashlib) (u "password") = Some (u "5BAA6").
Proof. vm_compute. reflexivity. Qed.

(** * Properties of [main] and [display_results] *)

Section ConsoleProperties.

Context `{Unicode}.
Variable float_repr : float -> str.

Lemma main_loop_trace (inputs : list str) :
  main_loop float_repr inputs
  = (flat_map (entry_events float_repr) (before_quit inputs)
     ++ (if existsb is_quit inputs
         then [Getpass prompt; Print farewell] else [Getpass prompt]),
     if existsb is_quit inputs then Returned else EOFError).
Proof.
  induction inputs as [| password rest IH]; [reflexivity |].
  cbn [main_loop before_quit existsb]. fold (is_quit password).
  destruct (is_quit password); [reflexivity |].
  cbn [orb flat_map]. unfold entry_events at 1.
  destruct (is_empty password).
  - rewrite IH. reflexivity.
  - destruct (analyze_password_returns password)
      as (rep & ent & _ & _ & Hrun).
    rewrite Hrun, IH. cbn [app]. now rewrite <- !app_assoc.
Qed.

Lemma before_quit_app (pre : list str) (q : str) (post : list str) :
  is_quit q = true ->
  before_quit (pre ++ q :: post) = before_quit (pre ++ [q]).
Proof.
  intros Hq. induction pre as [| p pre IH]; cbn [app before_quit].
  - now rewrite Hq.
  - now rewrite IH.
Qed.

Lemma exists_quit_app (pre : list str) (q : str) (post : list str) :
  is_quit q = true -> existsb is_quit (pre ++ q :: post) = true.
Proof.
  intros Hq. rewrite existsb_app. cbn [existsb].
  now rewrite Hq, orb_true_r.
Qed.

(** X13: a run of [main] on the entries typed at the prompt prints the
    banner, answers every entry before the first one that lowercases to
    quit (an empty one with the notice, any other with its report and a
    blank line), and then either says farewell and returns, if such an
    entry came, or ends with [EOFError] at one more prompt.  No exception
    of the analysis ever leaves [main]. *)
Theorem X13_main_session (inputs : list str) :
  main float_repr inputs
  = (banner ++ flat_map (entry_events float_repr) (before_quit inputs)
     ++ (if existsb is_quit inputs
         then [Getpass prompt; Print farewell] else [Getpass prompt]),
     if existsb is_quit inputs then Returned else EOFError)
  /\ (forall e, snd (main float_repr inputs) <> Uncaught e)
  /\ Forall (fun password => is_quit password = false)
       (before_quit inputs).
Proof.
  unfold main. rewrite main_loop_trace. split; [reflexivity |]. split.
  - intros e. cbn [snd]. destruct (existsb is_quit inputs); discriminate.
  - induction inputs as [| password rest IH]; cbn [before_quit];
      [constructor |].
    destruct (is_quit password) eqn:E; constructor; assumption.
Qed.

(** X14: whatever is typed after an entry that lowercases to quit is
    never read: the run is the same as if the input ended there, and it
    returns normally. *)
Theorem X14_main_stops_at_quit (pre : list str) (q : str) (post : list str)
  (Hq : lower q = u "quit") :
  main float_repr (pre ++ q :: post) = main float_repr (pre ++ [q])
  /\ snd (main float_repr (pre ++ q :: post)) = Returned.
Proof.
  assert (Hquit : is_quit q = true).
  { unfold is_quit. rewrite Hq. now apply str_eqb_eq. }
  unfold main. rewrite !main_loop_trace.
  rewrite (before_quit_app pre q post Hquit).
  rewrite !exists_quit_app by assumption. split; reflexivity.
Qed.

End ConsoleProperties.

Lemma X14_main_stops_at_quit_witness :
  main (H := basic_unicode) (fun _ => u "-3.32")
    ([u "hunter2"] ++ u "QUIT" :: [u "secret"; u "more"])
  = main (H := basic_unicode) (fun _ => u "-3.32") ([u "hunter2"] ++ [u "QUIT"]).
Proof.
  refine (proj1 (X14_main_stops_at_quit (H := basic_unicode) _
                   [u "hunter2"] (u "QUIT") [u "secret"; u "more"] _)).
  reflexivity.
Defined.

(** ** The Security Issues section of [display_results] *)




Section DisplayProperties.

Context `{Unicode}.
Variable float_repr : float -> str.





End DisplayProperties.

(** * More on the detectors and the advice *)

(** X16: the special-character flag is set exactly when the password
    contains one of the twenty characters of the pattern (code points 33,
    34, 35, 36, 37, 38, 40, 41, 42, 44, 46, 58, 60, 62, 63, 64, 94, 123,
    124, 125); hyphen, underscore, plus, equals, slash, semicolon,
    apostrophe, square brackets, tilde, backquote and space do not set
    it. *)
Theorem X16_special_is_a_fixed_set `{Unicode} (password : str) :
  exists report,
    analyze_password password = Ok report
    /\ (has_special (checks report) = true <->
        exists c, In c password
               /\ In c [33; 34; 35; 36; 37; 38; 40; 41; 42; 44; 46; 58; 60;
                        62; 63; 64; 94; 123; 124; 125]%N)
    /\ ((forall c, In c password -> In c (u "-_+=/;'[]~` ")) ->
        has_special (checks report) = false).
Proof.
  destruct (analyze_password_returns password) as (rep & ent & _ & _ & Hrun).
  eexists. split; [exact Hrun |]. cbn [checks has_special checks_of].
  assert (Hset : forall c, is_special c = true <->
                 In c [33; 34; 35; 36; 37; 38; 40; 41; 42; 44; 46; 58; 60;
                       62; 63; 64; 94; 123; 124; 125]%N).
  { intros c. unfold is_special. rewrite existsb_exists. split.
    - intros (x & Hin & Hx). apply N.eqb_eq in Hx. subst x.
      vm_compute in Hin. cbn [In]. intuition.
    - intros Hin. exists c. split; [| apply N.eqb_refl].
      cbn [In] in Hin. vm_compute. intuition. }
  split.
  - rewrite re_search_class_spec.
    split; intros (c & Hin & Hc); exists c; (split; [exact Hin |]);
      now apply Hset.
  - intros Hall. apply search_none. intros c Hin. apply Hall in Hin.
    vm_compute in Hin.
    repeat (destruct Hin as [<- | Hin]; [reflexivity |]). contradiction.
Qed.

(** ** Renaming the characters *)

Lemma counter_incr_rename (f : codepoint -> codepoint)
  (Hinj : forall a b, f a = f b -> a = b)
  (c : codepoint) (m : list (codepoint * Z)) :
  counter_incr (f c) (map (fun kv => (f (fst kv), snd kv)) m)
  = map (fun kv => (f (fst kv), snd kv)) (counter_incr c m).
Proof.
  induction m as [| [k v] m IH]; [reflexivity |]. cbn [map counter_incr fst snd].
  assert (Heq : N.eqb (f k) (f c) = N.eqb k c).
  { destruct (N.eqb_spec k c) as [-> | Hne]; [apply N.eqb_refl |].
    apply N.eqb_neq. intros Hf. now apply Hinj in Hf. }
  rewrite Heq. destruct (N.eqb k c); cbn [map fst snd]; [reflexivity |].
  now rewrite IH.
Qed.

Lemma counter_rename (f : codepoint -> codepoint)
  (Hinj : forall a b, f a = f b -> a = b) (s : str) :
  values (Counter (map f s)) = values (Counter s).
Proof.
  unfold Counter.
  assert (Hgen : forall m,
    fold_left (fun m c => counter_incr c m) (map f s)
      (map (fun kv => (f (fst kv), snd kv)) m)
    = map (fun kv => (f (fst kv), snd kv))
        (fold_left (fun m c => counter_incr c m) s m)).
  { induction s as [| c s IH]; intros m; [reflexivity |].
    cbn [map fold_left]. now rewrite counter_incr_rename, IH. }
  specialize (Hgen []). change (map (fun kv : codepoint * Z =>
    (f (fst kv), snd kv)) []) with (@nil (codepoint * Z)) in Hgen at 1.
  rewrite Hgen. unfold values. rewrite map_map. reflexivity.
Qed.

Lemma triple_at_rename (f : codepoint -> codepoint)
  (Hinj : forall a b, f a = f b -> a = b) (s : str) (i : nat) :
  triple_at (map f s) i = triple_at s i.
Proof.
  unfold triple_at. rewrite !nth_error_map.
  destruct (nth_error s i) as [a |]; [| reflexivity].
  destruct (nth_error s (i + 1)) as [b |]; [| reflexivity].
  destruct (nth_error s (i + 2)) as [c |]; [| reflexivity].
  cbn [option_map].
  assert (Heq : forall x y, N.eqb (f x) (f y) = N.eqb x y).
  { intros x y. destruct (N.eqb_spec x y) as [-> | Hne]; [apply N.eqb_refl |].
    apply N.eqb_neq. intros Hf. now apply Hinj in Hf. }
  now rewrite !Heq.
Qed.

(** X17: the entropy estimate and the repeated-run check do not look at
    which characters a password uses: replacing its characters one for one
    by others changes neither. *)
Theorem X17_blind_to_renaming (f : codepoint -> codepoint)
  (Hinj : forall a b, f a = f b -> a = b) (password : str) :
  _calculate_entropy (map f password) = _calculate_entropy password
  /\ _check_repeated_chars (map f password) = _check_repeated_chars password.
Proof.
  split.
  - unfold _calculate_entropy.
    rewrite (counter_rename f Hinj). unfold len. now rewrite length_map.
  - rewrite !check_repeated_chars_scan, length_map. f_equal.
    induction (seq 0 (List.length password - 2)) as [| i l IH];
      [reflexivity |].
    cbn [existsb]. now rewrite IH, triple_at_rename.
Qed.

Lemma X17_blind_to_renaming_witness :
  _calculate_entropy (map N.succ (u "hello")) = _calculate_entropy (u "hello").
Proof.
  refine (proj1 (X17_blind_to_renaming N.succ _ (u "hello"))).
  intros a b Hab. now apply N.succ_inj.
Defined.

(** ** Which advice is given *)

Lemma advice_texts_distinct (r : Checks) :
  NoDup (fallback_advice :: map snd (advice_table r)).
Proof.
  cbn [advice_table map snd].
  repeat (constructor; [cbn [In]; intuition discriminate |]). constructor.
Qed.

Lemma filter_nodup_snd {A B : Type} (keep : A * B -> bool)
  (l : list (A * B)) :
  NoDup (map snd l) -> NoDup (map snd (filter keep l)).
Proof.
  induction l as [| x l IH]; cbn; [constructor |]. intros Hnd.
  inversion Hnd as [| ? ? Hnotin Hrest]; subst.
  destruct (keep x); [| auto]. cbn. constructor; [| auto].
  intros Hin. apply Hnotin. apply in_map_iff in Hin.
  destruct Hin as (y & Hy & Hin). apply filter_In in Hin.
  apply in_map_iff. exists y. tauto.
Qed.

Lemma nodup_snd_functional {A B : Type} (l : list (A * B)) (a a' : A)
  (b : B) :
  NoDup (map snd l) -> In (a, b) l -> In (a', b) l -> a = a'.
Proof.
  induction l as [| [x y] l IH]; cbn; [tauto |]. intros Hnd H1 H2.
  inversion Hnd as [| ? ? Hnotin Hrest]; subst.
  destruct H1 as [H1 | H1], H2 as [H2 | H2].
  - congruence.
  - injection H1 as -> ->. exfalso. apply Hnotin.
    apply in_map_iff. now exists (a', b).
  - injection H2 as -> ->. exfalso. apply Hnotin.
    apply in_map_iff. now exists (a, b).
  - eauto.
Qed.

(** X18: in the recommendations of every password no entry occurs twice;
    the advice of each of the eight conditions is in the list exactly when
    its condition holds; and the fallback entry is in the list exactly when
    none of them holds. *)
Theorem X18_advice_iff_condition `{Unicode} (password : str) :
  exists report,
    analyze_password password = Ok report
    /\ NoDup (recommendations report)
    /\ (forall cond advice,
          In (cond, advice) (advice_table (checks report)) ->
          (In advice (recommendations report) <-> cond = true))
    /\ (In fallback_advice (recommendations report) <->
        forall cond advice,
          In (cond, advice) (advice_table (checks report)) -> cond = false).
Proof.
  destruct (analyze_password_returns password) as (rep & ent & _ & _ & Hrun).
  eexists. split; [exact Hrun |]. cbn [checks recommendations].
  set (r := checks_of password rep ent).
  rewrite generate_recommendations_spec.
  pose proof (advice_texts_distinct r) as Hnd.
  apply NoDup_cons_iff in Hnd. destruct Hnd as [Hfb Htable].
  assert (Hfired : forall cond advice,
            In (cond, advice) (advice_table r) ->
            (In advice (fired_advice r) <-> cond = true)).
  { intros cond advice Hin. unfold fired_advice. rewrite in_map_iff. split.
    - intros ([c a] & Ha & Hf). cbn in Ha. subst a.
      apply filter_In in Hf. destruct Hf as [Hin' Hc]. cbn in Hc. subst c.
      symmetry. now apply (nodup_snd_functional _ _ _ advice Htable Hin' Hin).
    - intros ->. exists (true, advice). split; [reflexivity |].
      apply filter_In. now split. }
  assert (Hnofb : ~ In fallback_advice (fired_advice r)).
  { unfold fired_advice. intros Hin. apply Hfb. apply in_map_iff in Hin.
    destruct Hin as (x & Hx & Hin). apply filter_In in Hin.
    apply in_map_iff. exists x. tauto. }
  unfold advice_spec.
  destruct (fired_advice r) as [| a l] eqn:E.
  - split; [repeat constructor; cbn; tauto |]. split.
    + intros cond advice Hin. specialize (Hfired cond advice Hin).
      cbn [In] in *. split.
      * intros [<- | []]. exfalso. apply Hfb.
        apply in_map_iff. now exists (cond, fallback_advice).
      * intros Hc. apply Hfired in Hc. contradiction.
    + split; [| cbn; tauto]. intros _ cond advice Hin.
      specialize (Hfired cond advice Hin). cbn [In] in Hfired.
      destruct cond; [| reflexivity]. exfalso. now apply Hfired.
  - split; [rewrite <- E; apply filter_nodup_snd, Htable |].
    split; [exact Hfired |]. split; [intros Hin; contradiction |].
    intros Hnone. exfalso.
    assert (Hin : In a (fired_advice r)) by (rewrite E; now left).
    unfold fired_advice in Hin. apply in_map_iff in Hin.
    destruct Hin as ([c a'] & _ & Hin). apply filter_In in Hin.
    destruct Hin as [Hin Hc]. cbn in Hc. subst c.
    discriminate (Hnone true a' Hin).
Qed.
